(** * BoostBotTracker: the fetch client and the update controller

    A shallow embedding of [src/bot/tibia_api.py] (class [TibiaAPI]) and of
    [src/main.py] (class [TibiaBot]) together with the properties of the
    change-detection and update-dispatch loop.

    Both files are [async] Python.  A coroutine is embedded as a finite
    tree of effects ([Prog]): every call that leaves the coroutine (an HTTP
    request, a sleep, a channel send, a logger call, a read or write of an
    attribute of [self]) is a node whose children are indexed by the answer.
    The trees are run against an environment of oracles that may answer by
    the whole history of the run, so a theorem quantified over the
    environment covers every behaviour of the network and of the chat
    platform. *)

From Stdlib Require Import ZArith List String Ascii Bool Lia DecimalString.
From Stdlib Require Import Sorted.
From Stdlib Require DecimalPos DecimalZ DecimalFacts.
Import ListNotations.
Local Open Scope string_scope.
Local Open Scope Z_scope.

Set Implicit Arguments.
Set Warnings "-register-all".

(* ================================================================== *)
(** ** Python values, exceptions and string methods *)

Module Py.

(** The exception classes the two files name in their [except] clauses, and
    the ones the interpreter raises on a malformed value.  Only subclasses
    of [Exception] are modelled ([except Exception] does not catch
    [CancelledError] or [KeyboardInterrupt]). *)
Inductive exn_class : Type :=
| Forbidden            (* discord.Forbidden, a subclass of HTTPException *)
| NotFound             (* discord.NotFound, a subclass of HTTPException *)
| HTTPException        (* discord.HTTPException itself *)
| TimeoutError         (* asyncio.TimeoutError *)
| ClientError          (* aiohttp.ClientError and its subclasses *)
| OSError              (* a raw connection failure *)
| KeyError
| TypeError
| AttributeError
| ValueError.

Record exn : Type := Exn { exn_class_of : exn_class; exn_str : string }.

(** [isinstance(e, discord.Forbidden)] *)
Definition is_Forbidden (e : exn) : bool :=
  match exn_class_of e with Forbidden => true | _ => false end.

(** [isinstance(e, discord.HTTPException)] *)
Definition is_HTTPException (e : exn) : bool :=
  match exn_class_of e with
  | Forbidden | NotFound | HTTPException => true
  | _ => false
  end.

(** [isinstance(e, asyncio.TimeoutError)] *)
Definition is_TimeoutError (e : exn) : bool :=
  match exn_class_of e with TimeoutError => true | _ => false end.

(** [isinstance(e, aiohttp.ClientError)] *)
Definition is_ClientError (e : exn) : bool :=
  match exn_class_of e with ClientError => true | _ => false end.

(** [logger.info], [logger.warning], [logger.error] *)
Inductive level : Type := INFO | WARNING | ERROR.

(** The outcome of a call that may raise. *)
Inductive result (A : Type) : Type :=
| Ok (a : A)
| Err (e : exn).
Arguments Ok {A} a.
Arguments Err {A} e.

Definition rbind {A B} (r : result A) (f : A -> result B) : result B :=
  match r with Ok a => f a | Err e => Err e end.

(** What [response.json()] and the dictionaries built from it hold: [None],
    booleans, integers, strings, lists and dictionaries (in insertion
    order).  Python's [None] and JSON's [null] are the same value. *)
Inductive Json : Type :=
| JNull
| JBool (b : bool)
| JNum (n : Z)
| JStr (s : string)
| JList (l : list Json)
| JDict (d : list (string * Json)).

(** Truth value of an object, as tested by [if], [and], [or], [not]. *)
Definition truthy (v : Json) : bool :=
  match v with
  | JNull => false
  | JBool b => b
  | JNum n => negb (n =? 0)
  | JStr s => negb (s =? "")%string
  | JList l => match l with [] => false | _ => true end
  | JDict d => match d with [] => false | _ => true end
  end.

(** [d[key]] without the error: the first binding of [key]. *)
Fixpoint lookup (key : string) (d : list (string * Json)) : option Json :=
  match d with
  | [] => None
  | (k, v) :: d' => if (k =? key)%string then Some v else lookup key d'
  end.

(** [needle in haystack] for two strings. *)
Fixpoint is_prefix (p s : string) : bool :=
  match p, s with
  | EmptyString, _ => true
  | String a p', String b s' => (a =? b)%char && is_prefix p' s'
  | String _ _, EmptyString => false
  end.

Fixpoint is_substring (needle hay : string) : bool :=
  is_prefix needle hay ||
  match hay with
  | EmptyString => false
  | String _ hay' => is_substring needle hay'
  end.

(** [x == key] for a value [x] and a string [key]. *)
Definition eq_str (key : string) (x : Json) : bool :=
  match x with JStr s => (s =? key)%string | _ => false end.

(** [key in v] for a string [key]: keys of a dictionary, elements of a list,
    substrings of a string; the other values are not containers. *)
Definition py_in (key : string) (v : Json) : result bool :=
  match v with
  | JDict d => Ok (match lookup key d with Some _ => true | None => false end)
  | JList l => Ok (existsb (eq_str key) l)
  | JStr s => Ok (is_substring key s)
  | JNull => Err (Exn TypeError "argument of type 'NoneType' is not iterable")
  | JBool _ => Err (Exn TypeError "argument of type 'bool' is not iterable")
  | JNum _ => Err (Exn TypeError "argument of type 'int' is not iterable")
  end.

(** [v[key]] for a string [key]. *)
Definition py_getitem (v : Json) (key : string) : result Json :=
  match v with
  | JDict d =>
      match lookup key d with
      | Some x => Ok x
      | None => Err (Exn KeyError ("'" ++ key ++ "'"))
      end
  | JList _ => Err (Exn TypeError "list indices must be integers or slices, not str")
  | JStr _ => Err (Exn TypeError "string indices must be integers, not 'str'")
  | JNull => Err (Exn TypeError "'NoneType' object is not subscriptable")
  | JBool _ => Err (Exn TypeError "'bool' object is not subscriptable")
  | JNum _ => Err (Exn TypeError "'int' object is not subscriptable")
  end.

(** [v.get(key, default)]: only a dictionary has the method. *)
Definition py_get (v : Json) (key : string) (default : Json) : result Json :=
  match v with
  | JDict d =>
      match lookup key d with
      | Some x => Ok x
      | None => Ok default
      end
  | JList _ => Err (Exn AttributeError "'list' object has no attribute 'get'")
  | JStr _ => Err (Exn AttributeError "'str' object has no attribute 'get'")
  | JNull => Err (Exn AttributeError "'NoneType' object has no attribute 'get'")
  | JBool _ => Err (Exn AttributeError "'bool' object has no attribute 'get'")
  | JNum _ => Err (Exn AttributeError "'int' object has no attribute 'get'")
  end.

(** [str(n)] for an integer. *)
Definition str_of_Z (n : Z) : string := NilZero.string_of_int (Z.to_int n).

(** String methods.  Names are taken to be ASCII: [lower] maps [A]..[Z] to
    [a]..[z] and leaves every other character alone. *)
Definition lower_char (c : ascii) : ascii :=
  let n := nat_of_ascii c in
  if (65 <=? n)%nat && (n <=? 90)%nat then ascii_of_nat (n + 32) else c.

Fixpoint lower (s : string) : string :=
  match s with
  | EmptyString => EmptyString
  | String c s' => String (lower_char c) (lower s')
  end.

(** [s.replace(old, new)] for one-character [old] and [new]. *)
Fixpoint replace_char (old new : ascii) (s : string) : string :=
  match s with
  | EmptyString => EmptyString
  | String c s' =>
      String (if (c =? old)%char then new else c) (replace_char old new s')
  end.

(** [s.lstrip(c)] for a one-character [c]. *)
Fixpoint lstrip_char (c : ascii) (s : string) : string :=
  match s with
  | EmptyString => EmptyString
  | String a s' => if (a =? c)%char then lstrip_char c s' else s
  end.

(** Python's whitespace, as [str.strip()] removes it. *)
Definition is_space (c : ascii) : bool :=
  let n := nat_of_ascii c in
  ((9 <=? n)%nat && (n <=? 13)%nat) || (n =? 32)%nat.

Fixpoint lstrip (s : string) : string :=
  match s with
  | EmptyString => EmptyString
  | String a s' => if is_space a then lstrip s' else s
  end.

(** [rstrip]: drop the trailing whitespace. *)
Fixpoint rstrip (s : string) : string :=
  match s with
  | EmptyString => EmptyString
  | String a s' =>
      match rstrip s' with
      | EmptyString => if is_space a then EmptyString else String a EmptyString
      | t => String a t
      end
  end.

(** [s.strip()] *)
Definition strip (s : string) : string := rstrip (lstrip s).

(** [range(n)] *)
Definition range (n : Z) : list Z := map Z.of_nat (seq 0 (Z.to_nat n)).

End Py.

(* ================================================================== *)
(** ** Coroutines as effect trees *)

Module Coroutine.
Import Py.

(** A coroutine over the effect signature [E] either returns, raises, or
    performs an effect with answer type [X] and goes on with the answer. *)
Inductive Prog (E : Type -> Type) (A : Type) : Type :=
| Ret (a : A)
| Raise (e : exn)
| Vis (X : Type) (eff : E X) (k : X -> Prog E A).
Arguments Ret {E A} a.
Arguments Raise {E A} e.
Arguments Vis {E A X} eff k.

Fixpoint bind {E A B} (p : Prog E A) (f : A -> Prog E B) : Prog E B :=
  match p with
  | Ret a => f a
  | Raise e => Raise e
  | Vis eff k => Vis eff (fun x => bind (k x) f)
  end.

(** [try: p  except Exception as e: h e] *)
Fixpoint try_except {E A} (p : Prog E A) (h : exn -> Prog E A) : Prog E A :=
  match p with
  | Ret a => Ret a
  | Raise e => h e
  | Vis eff k => Vis eff (fun x => try_except (k x) h)
  end.

Definition perform {E X} (eff : E X) : Prog E X := Vis eff (fun x => Ret x).

(** An expression that may raise, evaluated inside a coroutine. *)
Definition eval {E A} (r : result A) : Prog E A :=
  match r with Ok a => Ret a | Err e => Raise e end.

(** How a run ends. *)
Inductive outcome (A : Type) : Type :=
| Returned (a : A)
| Raised (e : exn).
Arguments Returned {A} a.
Arguments Raised {A} e.

Section Run.
Context {E : Type -> Type} {S : Type}.
(** The handler answers an effect in a state and gives the next state. *)
Variable handle : forall X, E X -> S -> X * S.

(** Running a coroutine to its end, with nothing else scheduled in
    between. *)
Fixpoint run {A} (p : Prog E A) (s : S) : outcome A * S :=
  match p with
  | Ret a => (Returned a, s)
  | Raise e => (Raised e, s)
  | Vis eff k => let (x, s') := handle eff s in run (k x) s'
  end.
End Run.

End Coroutine.

Declare Scope result_scope.
Delimit Scope result_scope with result.
Notation "x <- r ;; q" := (Py.rbind r (fun x => q))
  (at level 61, r at next level, right associativity) : result_scope.

Declare Scope prog_scope.
Delimit Scope prog_scope with prog.
Notation "x <- p ;; q" := (Coroutine.bind p (fun x => q))
  (at level 61, p at next level, right associativity) : prog_scope.
Notation "p ;; q" := (Coroutine.bind p (fun _ => q))
  (at level 61, right associativity) : prog_scope.

(* ================================================================== *)
(** ** [src/bot/tibia_api.py]: the fetch client *)

Module TibiaAPI.
Import Py Coroutine.
Local Open Scope prog_scope.

(** The message of a logger call: an f-string is kept as its pieces in
    order, text (literal text and the [str] of a string, an integer or an
    exception) and interpolated values of any type. *)
Inductive piece : Type :=
| Text (s : string)
| Interp (v : Json).

(** What [session.get(url)] hands to the body of [async with]: the status
    and what [await response.json()] gives when it is called. *)
Record Response : Type := { status : Z; json : result Json }.

(** The calls that leave the coroutines of [TibiaAPI].  [SessionGet] stands
    for [self._get_session()] followed by [session.get(url)]; both are
    inside the [try] of [_make_request], so whatever they raise is one
    [Err]. *)
Inductive ApiE : Type -> Type :=
| SessionGet (url : string) : ApiE (result Response)
| Sleep (secs : Z) : ApiE unit                       (* asyncio.sleep *)
| Log (lvl : level) (msg : list piece) : ApiE unit.

(** The history of a run: every call with its answer. *)
Inductive Event : Type :=
| EvGet (url : string) (r : result Response)
| EvSleep (secs : Z)
| EvLog (lvl : level) (msg : list piece).

(** The remote API: it answers a GET by the URL and by everything that
    happened before. *)
Record Env : Type := { http : list Event -> string -> result Response }.

Definition handle (env : Env) X (eff : ApiE X) (tr : list Event)
  : X * list Event :=
  match eff in ApiE X return X * list Event with
  | SessionGet url => let r := http env tr url in (r, (tr ++ [EvGet url r])%list)
  | Sleep secs => (tt, (tr ++ [EvSleep secs])%list)
  | Log lvl msg => (tt, (tr ++ [EvLog lvl msg])%list)
  end.

Definition exec {A} (env : Env) (p : Prog ApiE A) (tr : list Event)
  : outcome A * list Event :=
  run (handle env) p tr.

Definition BASE_URL : string := "https://api.tibiadata.com/v4".

(** The three ways one turn of the retry loop ends: [return data],
    [continue], or falling out of the [try] statement. *)
Inductive flow : Type :=
| FReturn (data : Json)
| FContinue
| FNext.

(** The [try] statement of [_make_request], for one [attempt]. *)
Definition attempt_try (url : string) (attempt : Z) : Prog ApiE flow :=
  try_except
    (r <- perform (SessionGet url) ;;
     response <- eval r ;;
     if status response =? 200 then
       data <- eval (json response) ;;
       Ret (FReturn data)
     else if status response =? 429 then
       let wait_time := 2 ^ attempt in
       perform (Log WARNING [Text "Rate limited. Waiting ";
                             Text (str_of_Z wait_time);
                             Text "s before retry ";
                             Text (str_of_Z (attempt + 1))]) ;;
       perform (Sleep wait_time) ;;
       Ret FContinue
     else
       perform (Log ERROR [Text "API request failed with status ";
                           Text (str_of_Z (status response));
                           Text ": "; Text url]) ;;
       Ret FNext)
    (fun e =>
       if is_TimeoutError e then
         perform (Log ERROR [Text "Request timeout for "; Text url;
                             Text " (attempt ";
                             Text (str_of_Z (attempt + 1)); Text ")"]) ;;
         Ret FNext
       else if is_ClientError e then
         perform (Log ERROR [Text "Client error for "; Text url; Text ": ";
                             Text (exn_str e); Text " (attempt ";
                             Text (str_of_Z (attempt + 1)); Text ")"]) ;;
         Ret FNext
       else
         perform (Log ERROR [Text "Unexpected error for "; Text url;
                             Text ": "; Text (exn_str e); Text " (attempt ";
                             Text (str_of_Z (attempt + 1)); Text ")"]) ;;
         Ret FNext).

(** [for attempt in attempts: ...] followed by the two lines after the
    loop. *)
Fixpoint retry_loop (url : string) (retries : Z) (attempts : list Z)
  : Prog ApiE Json :=
  match attempts with
  | [] =>
      perform (Log ERROR [Text "Failed to fetch data from "; Text url;
                          Text " after "; Text (str_of_Z (retries + 1));
                          Text " attempts"]) ;;
      Ret JNull
  | attempt :: rest =>
      f <- attempt_try url attempt ;;
      match f with
      | FReturn data => Ret data
      | FContinue => retry_loop url retries rest
      | FNext =>
          (if attempt <? retries
           then perform (Sleep (2 ^ attempt))
           else Ret tt) ;;
          retry_loop url retries rest
      end
  end.

(** [TibiaAPI._make_request(endpoint, retries)]; the result [None] is
    [JNull]. *)
Definition _make_request (endpoint : string) (retries : Z) : Prog ApiE Json :=
  let url := BASE_URL ++ "/" ++ lstrip_char "/" endpoint in
  retry_loop url retries (range (retries + 1)).

(** The default of the parameter [retries]. *)
Definition default_retries : Z := 3.


(** The dictionary [get_boosted_creatures] returns. *)
Record BoostedSummary : Type :=
  { boosted_creature : Json; boosted_boss : Json; timestamp : Json }.

(** The value of [boosted_creature] after the statements on [world_data]:
    [None], or [world_info.get('boosted_creature')] when
    [world_data and 'world' in world_data and
     'world_information' in world_data['world']]. *)
Definition boosted_creature_of (world_data : Json) : result Json :=
  (c <- (if truthy world_data then
           has_world <- py_in "world" world_data ;;
           if has_world : bool then
             world <- py_getitem world_data "world" ;;
             py_in "world_information" world
           else Ok false
         else Ok false) ;;
   if c : bool then
     world <- py_getitem world_data "world" ;;
     world_info <- py_getitem world "world_information" ;;
     py_get world_info "boosted_creature" JNull
   else Ok JNull)%result.

(** The value of [boosted_boss] after the statements on [bosses_data]. *)
Definition boosted_boss_of (bosses_data : Json) : result Json :=
  (c <- (if truthy bosses_data
         then py_in "boostable_bosses" bosses_data
         else Ok false) ;;
   if c : bool then
     bosses_info <- py_getitem bosses_data "boostable_bosses" ;;
     c' <- (has_boosted <- py_in "boosted" bosses_info ;;
            if has_boosted : bool then
              boosted <- py_getitem bosses_info "boosted" ;;
              Ok (truthy boosted)
            else Ok false) ;;
     if c' : bool then
       boosted <- py_getitem bosses_info "boosted" ;;
       py_getitem boosted "name"
     else Ok JNull
   else Ok JNull)%result.

(** [world_data.get('information', {}).get('timestamp')
     if world_data else None] *)
Definition timestamp_of (world_data : Json) : result Json :=
  (if truthy world_data then
     information <- py_get world_data "information" (JDict []) ;;
     py_get information "timestamp" JNull
   else Ok JNull)%result.

(** [TibiaAPI.get_boosted_creatures()] *)
Definition get_boosted_creatures : Prog ApiE (option BoostedSummary) :=
  try_except
    (world_data <- _make_request "world/Antica" default_retries ;;
     boosted_creature <- eval (boosted_creature_of world_data) ;;
     bosses_data <- _make_request "boostablebosses" default_retries ;;
     boosted_boss <- eval (boosted_boss_of bosses_data) ;;
     if truthy boosted_creature || truthy boosted_boss then
       timestamp <- eval (timestamp_of world_data) ;;
       let result := {| boosted_creature := boosted_creature;
                        boosted_boss := boosted_boss;
                        timestamp := timestamp |} in
       perform (Log INFO [Text "Fetched boosted data: creature=";
                          Interp boosted_creature; Text ", boss=";
                          Interp boosted_boss]) ;;
       Ret (Some result)
     else
       perform (Log WARNING
                  [Text "No boosted creature or boss found in API response"]) ;;
       Ret None)
    (fun e =>
       perform (Log ERROR [Text "Error fetching boosted creatures: ";
                           Text (exn_str e)]) ;;
       Ret None).

(** [creature_name.replace(' ', '_').lower()] *)
Definition formatted_name (creature_name : string) : string :=
  lower (replace_char " " "_" creature_name).

(** [TibiaAPI.get_creature_details(creature_name)]; the argument is a
    string or [None], the result [None] is [JNull]. *)
Definition get_creature_details (creature_name : option string)
  : Prog ApiE Json :=
  match creature_name with
  | None => Ret JNull
  | Some name =>
      if (name =? "")%string then Ret JNull
      else
        try_except
          (data <- _make_request ("creature/" ++ formatted_name name)
                     default_retries ;;
           c <- (if truthy data
                 then eval (py_in "creature" data)
                 else Ret false) ;;
           if c : bool then
             creature_info <- eval (py_getitem data "creature") ;;
             perform (Log INFO [Text "Fetched details for creature: ";
                                Text name]) ;;
             Ret creature_info
           else
             perform (Log WARNING [Text "No details found for creature: ";
                                   Text name]) ;;
             Ret JNull)
          (fun e =>
             perform (Log ERROR [Text "Error fetching creature details for ";
                                 Text name; Text ": "; Text (exn_str e)]) ;;
             Ret JNull)
  end.

(** *** Reading a history *)

(** The answers to the GET requests of a history, in order. *)
Fixpoint gets (tr : list Event) : list (result Response) :=
  match tr with
  | [] => []
  | EvGet _ r :: tr' => r :: gets tr'
  | _ :: tr' => gets tr'
  end.

(** The URLs of the GET requests of a history, in order. *)
Fixpoint urls (tr : list Event) : list string :=
  match tr with
  | [] => []
  | EvGet url _ :: tr' => url :: urls tr'
  | _ :: tr' => urls tr'
  end.

(** The answer is a response with status [code]. *)
Definition has_status (code : Z) (r : result Response) : bool :=
  match r with
  | Ok response => status response =? code
  | Err _ => false
  end.

(** The body of an answer that is a 200 response whose body parses. *)
Definition parsed_200 (r : result Response) : option Json :=
  match r with
  | Ok response =>
      if status response =? 200 then
        match json response with
        | Ok data => Some data
        | Err _ => None
        end
      else None
  | Err _ => None
  end.

(** How one turn of the loop ends, by the answer to its request. *)
Definition flow_of (r : result Response) : flow :=
  match parsed_200 r with
  | Some data => FReturn data
  | None => if has_status 429 r then FContinue else FNext
  end.

(** An endpoint that answers its [n]-th request (from 0) with [f n]. *)
Definition env_by_count (f : nat -> result Response) : Env :=
  {| http := fun tr _ => f (List.length (gets tr)) |}.

(** The sentence of the specification on a 200 response, word for word:
    [request] returns the parsed JSON body of the first HTTP 200 response
    and stops immediately. *)
Definition spec_request_first_200 (env : Env) (endpoint : string)
    (retries : Z) : Prop :=
  let r := exec env (_make_request endpoint retries) [] in
  forall pre response post,
    gets (snd r) = (pre ++ Ok response :: post)%list ->
    forallb (fun x => negb (has_status 200 x)) pre = true ->
    status response = 200 ->
    post = [] /\
    exists data, json response = Ok data /\ fst r = Returned data.

(** An endpoint whose first answer is a 200 with a body that is not JSON
    and whose later answers are a 200 with a JSON body. *)
Definition env_garbled_then_ok : Env :=
  env_by_count (fun n =>
    match n with
    | O => Ok {| status := 200;
                 json := Err (Exn ValueError "Expecting value: line 1 column 1 (char 0)") |}
    | _ => Ok {| status := 200;
                 json := Ok (JDict [("creatures", JList [])]) |}
    end).

(** The endpoint of the retry scenario: 429 on the first two requests, then
    a 200 with the JSON body [body]. *)
Definition env_429_429_200 (body : Json) : Env :=
  env_by_count (fun n =>
    match n with
    | O | S O => Ok {| status := 429; json := Ok JNull |}
    | _ => Ok {| status := 200; json := Ok body |}
    end).

(** The endpoint of the exhaustion scenario: 500 on every request. *)
Definition env_always_500 : Env :=
  env_by_count (fun _ => Ok {| status := 500; json := Ok JNull |}).

(** The value a finished run returned ([None] for a run that raised). *)
Definition value_of (r : outcome Json * list Event) : Json :=
  match fst r with
  | Returned v => v
  | Raised _ => JNull
  end.

(** The field [key] of a dictionary, [None] for anything else. *)
Definition wrapper_field (key : string) (data : Json) : Json :=
  match data with
  | JDict d =>
      match lookup key d with
      | Some v => v
      | None => JNull
      end
  | _ => JNull
  end.

(** The normalisation the specification words: trim, lowercase, spaces to
    underscores. *)
Definition spec_normalize (name : string) : string :=
  replace_char " " "_" (lower (strip name)).

(** The sentence of the specification on the endpoint path, word for word:
    every request of [get_entity_details name] goes to the path built from
    the trimmed, lowercased, underscored name. *)
Definition spec_details_path (env : Env) (name : string) : Prop :=
  Forall (eq (BASE_URL ++ "/creature/" ++ spec_normalize name))
         (urls (snd (exec env (get_creature_details (Some name)) []))).

(** An API that serves the two documents [get_boosted_creatures] asks for
    and answers 404 to everything else. *)
Definition env_of_documents (world bosses : Json) : Env :=
  {| http := fun _ url =>
       if (url =? BASE_URL ++ "/world/Antica")%string
       then Ok {| status := 200; json := Ok world |}
       else if (url =? BASE_URL ++ "/boostablebosses")%string
       then Ok {| status := 200; json := Ok bosses |}
       else Ok {| status := 404; json := Ok JNull |} |}.

(** A world document with the boosted creature [creature]. *)
Definition world_document (creature : string) : Json :=
  JDict [("world",
          JDict [("name", JStr "Antica");
                 ("world_information",
                  JDict [("boosted_creature", JStr creature)])]);
         ("information",
          JDict [("api_version", JNum 4);
                 ("timestamp", JStr "2024-01-01T10:00:00Z")])].





(** *** The rest of [TibiaAPI] *)

(** [TibiaAPI.get_all_creatures()] *)
Definition get_all_creatures : Prog ApiE Json :=
  try_except
    (data <- _make_request "creatures" default_retries ;;
     c <- (if truthy data
           then eval (py_in "creatures" data)
           else Ret false) ;;
     if c : bool then
       perform (Log INFO [Text "Fetched all creatures list"]) ;;
       creatures <- eval (py_getitem data "creatures") ;;
       Ret creatures
     else
       perform (Log WARNING [Text "Failed to fetch creatures list"]) ;;
       Ret JNull)
    (fun e =>
       perform (Log ERROR [Text "Error fetching all creatures: ";
                           Text (exn_str e)]) ;;
       Ret JNull).

(** [TibiaAPI.get_creature_image_url(creature_name)]; the argument is a
    string or [None]. *)
Definition get_creature_image_url (creature_name : option string) : string :=
  match creature_name with
  | None => ""
  | Some name =>
      if (name =? "")%string then ""
      else
        let formatted_name := replace_char " " "_" name in
        "https://tibia.fandom.com/wiki/Special:Redirect/file/"
          ++ formatted_name ++ ".gif"
  end.

(** The two URLs of [get_boosted_creatures]. *)
Definition world_url : string := BASE_URL ++ "/world/Antica".
Definition bosses_url : string := BASE_URL ++ "/boostablebosses".

(** The seconds slept in a history, in order, and their sum. *)
Fixpoint sleeps (tr : list Event) : list Z :=
  match tr with
  | [] => []
  | EvSleep secs :: tr' => secs :: sleeps tr'
  | _ :: tr' => sleeps tr'
  end.

Definition total_sleep (tr : list Event) : Z :=
  fold_right Z.add 0 (sleeps tr).

(** [s] is a power of two with an exponent from [a] to [b - 1]. *)
Definition power_in (a b : nat) (s : Z) : Prop :=
  exists k, (a <= k < b)%nat /\ s = 2 ^ Z.of_nat k.

(** [c in s] for a character [c]. *)
Fixpoint contains_char (c : ascii) (s : string) : bool :=
  match s with
  | EmptyString => false
  | String a s' => (a =? c)%char || contains_char c s'
  end.

(** [c.isupper()] for an ASCII character. *)
Definition is_upper (c : ascii) : bool :=
  let n := nat_of_ascii c in (65 <=? n)%nat && (n <=? 90)%nat.

Fixpoint has_upper (s : string) : bool :=
  match s with
  | EmptyString => false
  | String a s' => is_upper a || has_upper s'
  end.

(** The string made of [n] slashes. *)
Fixpoint slashes (n : nat) : string :=
  match n with
  | O => ""
  | S n' => String "/" (slashes n')
  end.

(** An API that answers 429 to every request. *)
Definition env_always_429 : Env :=
  env_by_count (fun _ => Ok {| status := 429; json := Ok JNull |}).

(** *** Formatting *)

(** [c.isdigit()] and [s.isdigit()] for ASCII: a string that is not empty
    and holds decimal digits only. *)
Definition is_digit (c : ascii) : bool :=
  let n := nat_of_ascii c in (48 <=? n)%nat && (n <=? 57)%nat.

Fixpoint all_digits (s : string) : bool :=
  match s with
  | EmptyString => true
  | String c s' => is_digit c && all_digits s'
  end.

Definition isdigit (s : string) : bool :=
  match s with
  | EmptyString => false
  | _ => all_digits s
  end.

(** The value of a string of decimal digits. *)
Definition int_of_digits (s : string) : result Z :=
  match NilZero.uint_of_string s with
  | Some d => Ok (Z.of_uint d)
  | None =>
      Err (Exn ValueError
               ("invalid literal for int() with base 10: '" ++ s ++ "'"))
  end.

(** CPython bounds the conversions between [int] and decimal text: with
    the default setting ([sys.int_info.default_max_str_digits]) a
    conversion of more than 4300 digits raises [ValueError]. *)
Definition max_str_digits : nat := 4300.

(** [int(s)] where the two methods call it, on a string of digits (the
    call is guarded by [isdigit]).  Every character counts for the limit,
    zeros in front included. *)
Definition int_limit_error (digits : nat) : exn :=
  Exn ValueError
      ("Exceeds the limit (4300 digits) for integer string conversion"
       ++ ": value has " ++ str_of_Z (Z.of_nat digits)
       ++ " digits; use sys.set_int_max_str_digits() to increase the limit").

Definition py_int (s : string) : result Z :=
  if (max_str_digits <? String.length s)%nat
  then Err (int_limit_error (String.length s))
  else int_of_digits s.

(** The number of digits of [n]. *)
Definition digits_of (n : Z) : nat := String.length (str_of_Z (Z.abs n)).

(** The digits of a number from the last to the first, with a comma before
    every fourth, seventh, ... digit; [k] digits were written since the
    last comma. *)
Fixpoint group_from (k : nat) (l : list ascii) : list ascii :=
  match l with
  | [] => []
  | a :: rest =>
      if (k =? 3)%nat
      then ","%char :: a :: group_from 1 rest
      else a :: group_from (S k) rest
  end.

Definition group_digits (digits : string) : string :=
  string_of_list_ascii
    (rev (group_from 0 (rev (list_ascii_of_string digits)))).

(** The text of [f"{n:,}"] for an integer [n]. *)
Definition format_thousands (n : Z) : string :=
  if n <? 0 then "-" ++ group_digits (str_of_Z (- n))
  else group_digits (str_of_Z n).

(** [f"{n:,}"]: the text, unless the number has more digits than the
    limit (the sign does not count). *)
Definition str_limit_error : exn :=
  Exn ValueError
      ("Exceeds the limit (4300 digits) for integer string conversion"
       ++ "; use sys.set_int_max_str_digits() to increase the limit").

Definition py_format_thousands (n : Z) : result string :=
  if (max_str_digits <? digits_of n)%nat
  then Err str_limit_error
  else Ok (format_thousands n).

(** [TibiaAPI.format_hp(hp_value)].  [py_str] is [str] on lists and
    dictionaries, which may raise as well.  A boolean is an [int] for
    [isinstance]; numbers with a fraction are outside [Json]. *)
Definition format_hp (py_str : Json -> result string) (hp_value : Json)
  : result string :=
  match hp_value with
  | JNum n => py_format_thousands n
  | JBool b => py_format_thousands (if b then 1 else 0)
  | JStr s =>
      if isdigit s then
        (n <- py_int s ;; py_format_thousands n)%result
      else Ok (if truthy hp_value then s else "Unknown")
  | _ => if truthy hp_value then py_str hp_value else Ok "Unknown"
  end.

(** [TibiaAPI.format_experience(exp_value)]: the same statements. *)
Definition format_experience (py_str : Json -> result string)
    (exp_value : Json) : result string :=
  match exp_value with
  | JNum n => py_format_thousands n
  | JBool b => py_format_thousands (if b then 1 else 0)
  | JStr s =>
      if isdigit s then
        (n <- py_int s ;; py_format_thousands n)%result
      else Ok (if truthy exp_value then s else "Unknown")
  | _ => if truthy exp_value then py_str exp_value else Ok "Unknown"
  end.

Definition not_comma (c : ascii) : bool := negb (c =? ",")%char.

(** [s.replace(",", "")] and [s.count(",")] *)
Fixpoint remove_commas (s : string) : string :=
  match s with
  | EmptyString => EmptyString
  | String c s' =>
      if (c =? ",")%char then remove_commas s' else String c (remove_commas s')
  end.

Fixpoint count_commas (s : string) : nat :=
  match s with
  | EmptyString => O
  | String c s' =>
      if (c =? ",")%char then S (count_commas s') else count_commas s'
  end.


(** *** The HTTP session *)

(** The [aiohttp.ClientSession] objects made so far, in order, each with
    its [closed] flag, and the one [self.session] refers to ([None] until
    the first is made). *)
Record Sessions : Type :=
  { created : list bool; current : option nat }.

(** [TibiaAPI.__init__]: [self.session = None]. *)
Definition no_session : Sessions := {| created := []; current := None |}.

(** [session.closed] of the [i]-th session. *)
Definition is_closed (st : Sessions) (i : nat) : bool :=
  nth i (created st) true.

(** [self.session = aiohttp.ClientSession(...)] *)
Definition new_session (st : Sessions) : nat * Sessions :=
  let i := List.length (created st) in
  (i, {| created := (created st ++ [false])%list; current := Some i |}).

(** [TibiaAPI._get_session()]: the session it returns and the state it
    leaves. *)
Definition _get_session (st : Sessions) : nat * Sessions :=
  match current st with
  | None => new_session st
  | Some i => if is_closed st i then new_session st else (i, st)
  end.

(** [await session.close()] on the [i]-th session. *)
Fixpoint set_closed (i : nat) (l : list bool) : list bool :=
  match l, i with
  | [], _ => []
  | _ :: l', O => true :: l'
  | b :: l', S i' => b :: set_closed i' l'
  end.

(** [TibiaAPI.close()] *)
Definition close (st : Sessions) : Sessions :=
  match current st with
  | None => st
  | Some i =>
      if negb (is_closed st i)
      then {| created := set_closed i (created st); current := current st |}
      else st
  end.

(** [TibiaAPI.__aexit__] *)
Definition __aexit__ (st : Sessions) : Sessions := close st.

(** The calls that touch the session, and a client after a list of them. *)
Inductive session_call : Type := call_get_session | call_close.

Definition session_step (st : Sessions) (c : session_call) : Sessions :=
  match c with
  | call_get_session => snd (_get_session st)
  | call_close => close st
  end.

Definition after_calls (calls : list session_call) : Sessions :=
  fold_left session_step calls no_session.

(** The number of sessions that are open. *)
Definition open_count (st : Sessions) : nat :=
  List.length (filter negb (created st)).

(** What every sequence of calls keeps: [self.session] is one of the
    sessions made, and every other session is closed. *)
Definition session_inv (st : Sessions) : Prop :=
  (forall i, current st = Some i -> (i < List.length (created st))%nat)
  /\ (forall j, is_closed st j = false -> current st = Some j).

End TibiaAPI.

(* ================================================================== *)
(** ** [src/main.py]: the update controller *)

Module TibiaBot.
Import Py Coroutine.
Local Open Scope prog_scope.

(** The two slots.  [_post_creature_update] and [_post_boss_update] are the
    same text up to the attribute of [self] they read, the builder method
    they call and the word "creature" or "boss" in their log lines, and so
    are the two [if] statements of [post_boosted_updates]; each is written
    once here, for a slot. *)
Inductive slot : Type := Creature | Boss.

(** "creature" or "boss", and the same capitalised. *)
Definition word (s : slot) : string :=
  match s with Creature => "creature" | Boss => "boss" end.

Definition Word (s : slot) : string :=
  match s with Creature => "Creature" | Boss => "Boss" end.

(** The dictionary [TibiaAPI.get_boosted_creatures] returns, with the
    types of its annotation ([Dict[str, str]], each value possibly
    [None]). *)
Record BoostedData : Type :=
  { boosted_creature : option string;
    boosted_boss : option string;
    timestamp : option string }.

(** A channel of the chat platform, by what the code reads of it. *)
Record Channel : Type := { channel_id : Z; channel_name : string }.

(** A [discord.Embed], by its dictionary. *)
Definition Embed : Type := Json.

(** The attributes of [self] that [__init__] sets from the environment and
    the two that track what was posted last. *)
Record Bot : Type :=
  { creature_channel_id : Z;
    boss_channel_id : Z;
    last_posted_creature : option string;
    last_posted_boss : option string }.

(** The dictionary [result] of [post_boosted_updates]. *)
Record UpdateResult : Type :=
  { creature_posted : bool;
    boss_posted : bool;
    errors : list string }.

(** The calls that leave the coroutines of [TibiaBot], each with the slot
    of its call site.  [EmbedBuilder] ([bot/embed_builder.py]) is outside
    this development: its two methods are calls answered by the
    environment, and they may raise. *)
Inductive MainE : Type -> Type :=
| GetBoostedCreatures : MainE (option BoostedData)
    (* await self.tibia_api.get_boosted_creatures() *)
| GetCreatureDetails (s : slot) (name : string) : MainE Json
    (* await self.tibia_api.get_creature_details(name) *)
| GetChannel (s : slot) (id : Z) : MainE (option Channel)
    (* self.get_channel(id) *)
| CreateEmbed (s : slot) (name : string) (details : Json)
    (boosted_data : BoostedData) : MainE (result Embed)
    (* self.embed_builder.create_creature_embed / create_boss_embed *)
| ChannelSend (s : slot) (channel : Channel) (embed : Embed)
    : MainE (result unit)
    (* await channel.send(embed=embed) *)
| Log (lvl : level) (msg : string) : MainE unit
| GetSelf : MainE Bot
| SetLastPosted (s : slot) (name : option string) : MainE unit
    (* self.last_posted_creature = name / self.last_posted_boss = name *)
| GetResult : MainE UpdateResult
| SetResult (r : UpdateResult) : MainE unit.

(** The history of a run: every call to the outside with its answer. *)
Inductive Event : Type :=
| EvGetBoosted (r : option BoostedData)
| EvGetDetails (s : slot) (name : string) (r : Json)
| EvGetChannel (s : slot) (id : Z) (r : option Channel)
| EvEmbed (s : slot) (name : string) (details : Json)
    (boosted_data : BoostedData) (r : result Embed)
| EvSend (s : slot) (channel : Channel) (embed : Embed) (r : result unit)
| EvLog (lvl : level) (msg : string).

(** The fetch client, the chat platform and the embed builder: each answers
    by its arguments and by everything that happened before.  The
    controller sees the fetch client through its annotated interface: the
    values of the summary are strings or [None].  By their code,
    [get_boosted_creatures] and [get_creature_details] catch every
    exception ([TibiaAPIFacts.fetch_client_never_raises]) and
    [get_channel] is a cache lookup, so the three do not raise. *)
Record Env : Type :=
  { api_get_boosted_creatures : list Event -> option BoostedData;
    api_get_creature_details : list Event -> slot -> string -> Json;
    get_channel : list Event -> slot -> Z -> option Channel;
    create_embed :
      list Event -> slot -> string -> Json -> BoostedData -> result Embed;
    channel_send : list Event -> slot -> Channel -> Embed -> result unit }.

(** The state a call runs in: [self], the local [result] of the call and
    the history. *)
Record State : Type :=
  { st_self : Bot; st_result : UpdateResult; st_trace : list Event }.

Definition log_event (ev : Event) (st : State) : State :=
  {| st_self := st_self st;
     st_result := st_result st;
     st_trace := (st_trace st ++ [ev])%list |}.

Definition set_last_posted (s : slot) (name : option string) (b : Bot) : Bot :=
  match s with
  | Creature =>
      {| creature_channel_id := creature_channel_id b;
         boss_channel_id := boss_channel_id b;
         last_posted_creature := name;
         last_posted_boss := last_posted_boss b |}
  | Boss =>
      {| creature_channel_id := creature_channel_id b;
         boss_channel_id := boss_channel_id b;
         last_posted_creature := last_posted_creature b;
         last_posted_boss := name |}
  end.

Definition handle (env : Env) X (eff : MainE X) (st : State) : X * State :=
  match eff in MainE X return X * State with
  | GetBoostedCreatures =>
      let r := api_get_boosted_creatures env (st_trace st) in
      (r, log_event (EvGetBoosted r) st)
  | GetCreatureDetails s name =>
      let r := api_get_creature_details env (st_trace st) s name in
      (r, log_event (EvGetDetails s name r) st)
  | GetChannel s id =>
      let r := get_channel env (st_trace st) s id in
      (r, log_event (EvGetChannel s id r) st)
  | CreateEmbed s name details boosted_data =>
      let r := create_embed env (st_trace st) s name details boosted_data in
      (r, log_event (EvEmbed s name details boosted_data r) st)
  | ChannelSend s channel embed =>
      let r := channel_send env (st_trace st) s channel embed in
      (r, log_event (EvSend s channel embed r) st)
  | Log lvl msg => (tt, log_event (EvLog lvl msg) st)
  | GetSelf => (st_self st, st)
  | SetLastPosted s name =>
      (tt, {| st_self := set_last_posted s name (st_self st);
              st_result := st_result st;
              st_trace := st_trace st |})
  | GetResult => (st_result st, st)
  | SetResult r =>
      (tt, {| st_self := st_self st;
              st_result := r;
              st_trace := st_trace st |})
  end.

(** The attribute and the dictionary entry of a slot. *)
Definition channel_id_of (s : slot) (b : Bot) : Z :=
  match s with
  | Creature => creature_channel_id b
  | Boss => boss_channel_id b
  end.

Definition last_posted (s : slot) (b : Bot) : option string :=
  match s with
  | Creature => last_posted_creature b
  | Boss => last_posted_boss b
  end.

(** [boosted_data.get('boosted_creature')], [boosted_data.get('boosted_boss')] *)
Definition observed (s : slot) (boosted_data : BoostedData) : option string :=
  match s with
  | Creature => boosted_creature boosted_data
  | Boss => boosted_boss boosted_data
  end.

Definition posted (s : slot) (r : UpdateResult) : bool :=
  match s with
  | Creature => creature_posted r
  | Boss => boss_posted r
  end.

(** [result['creature_posted'] = True], [result['boss_posted'] = True] *)
Definition set_posted (s : slot) (r : UpdateResult) : UpdateResult :=
  match s with
  | Creature =>
      {| creature_posted := true;
         boss_posted := boss_posted r;
         errors := errors r |}
  | Boss =>
      {| creature_posted := creature_posted r;
         boss_posted := true;
         errors := errors r |}
  end.

(** [result['errors'].append(msg)] *)
Definition append_error (msg : string) : Prog MainE unit :=
  r <- perform GetResult ;;
  perform (SetResult {| creature_posted := creature_posted r;
                        boss_posted := boss_posted r;
                        errors := (errors r ++ [msg])%list |}).

(** [TibiaBot._post_creature_update] and [TibiaBot._post_boss_update] *)
Definition _post_update (s : slot) (name : string) (boosted_data : BoostedData)
  : Prog MainE unit :=
  self <- perform GetSelf ;;
  if channel_id_of s self =? 0 then
    perform (Log WARNING (Word s ++ " channel ID not configured"))
  else
    channel <- perform (GetChannel s (channel_id_of s self)) ;;
    match channel with
    | None =>
        perform (Log ERROR ("Could not find " ++ word s ++
                            " channel with ID: " ++
                            str_of_Z (channel_id_of s self)))
    | Some channel =>
        details <- perform (GetCreatureDetails s name) ;;
        built <- perform (CreateEmbed s name details boosted_data) ;;
        embed <- eval built ;;
        try_except
          (sent <- perform (ChannelSend s channel embed) ;; eval sent)
          (fun e =>
             if is_Forbidden e then
               perform (Log ERROR ("No permission to send messages in " ++
                                   word s ++ " channel: " ++
                                   channel_name channel))
             else if is_HTTPException e then
               perform (Log ERROR ("Failed to send " ++ word s ++
                                   " embed: " ++ exn_str e))
             else Raise e)
    end.

Definition _post_creature_update := _post_update Creature.
Definition _post_boss_update := _post_update Boss.

(** [a != b] for two values that are strings or [None]. *)
Definition py_ne (a b : option string) : bool :=
  match a, b with
  | Some x, Some y => negb (x =? y)%string
  | None, None => false
  | _, _ => true
  end.

(** The condition of the two [if] statements:
    [name and (force_update or name != last)]. *)
Definition should_post (force_update : bool) (name last : option string)
  : bool :=
  match name with
  | Some n => negb (n =? "")%string && (force_update || py_ne name last)
  | None => false
  end.

(** One of the two [if] statements of [post_boosted_updates]. *)
Definition slot_update (s : slot) (force_update : bool)
    (boosted_data : BoostedData) : Prog MainE unit :=
  let name := observed s boosted_data in
  self <- perform GetSelf ;;
  match name with
  | Some n =>
      if should_post force_update name (last_posted s self) then
        _post_update s n boosted_data ;;
        perform (SetLastPosted s name) ;;
        r <- perform GetResult ;;
        perform (SetResult (set_posted s r)) ;;
        perform (Log INFO ("Posted boosted " ++ word s ++ " update: " ++ n))
      else Ret tt
  | None => Ret tt
  end.

(** [TibiaBot.post_boosted_updates(force_update)] *)
Definition post_boosted_updates (force_update : bool)
  : Prog MainE UpdateResult :=
  perform (SetResult {| creature_posted := false;
                        boss_posted := false;
                        errors := [] |}) ;;
  try_except
    (boosted_data <- perform GetBoostedCreatures ;;
     match boosted_data with
     | None => append_error "Failed to fetch boosted data"
     | Some boosted_data =>
         slot_update Creature force_update boosted_data ;;
         slot_update Boss force_update boosted_data
     end)
    (fun e =>
       let error_msg := "Error posting boosted updates: " ++ exn_str e in
       perform (Log ERROR error_msg) ;;
       append_error error_msg) ;;
  perform GetResult.

(** A call of [post_boosted_updates] on the bot [bot] after the history
    [tr], run to its end. *)
Definition call (env : Env) (force_update : bool) (bot : Bot)
    (tr : list Event) : outcome UpdateResult * State :=
  run (handle env) (post_boosted_updates force_update)
      {| st_self := bot;
         st_result := {| creature_posted := false;
                         boss_posted := false;
                         errors := [] |};
         st_trace := tr |}.

(** *** Reading a history *)

(** What a call added to the history. *)
Definition new_events (before after : list Event) : list Event :=
  skipn (List.length before) after.

Definition slot_eqb (a b : slot) : bool :=
  match a, b with
  | Creature, Creature | Boss, Boss => true
  | _, _ => false
  end.

(** The answers to the [channel.send] calls of a slot, in order. *)
Fixpoint sends (s : slot) (tr : list Event) : list (result unit) :=
  match tr with
  | [] => []
  | EvSend s' _ _ r :: tr' =>
      if slot_eqb s s' then r :: sends s tr' else sends s tr'
  | _ :: tr' => sends s tr'
  end.

(** The calls of [get_creature_details] of a slot, by name. *)
Fixpoint detail_fetches (s : slot) (tr : list Event) : list string :=
  match tr with
  | [] => []
  | EvGetDetails s' name _ :: tr' =>
      if slot_eqb s s' then name :: detail_fetches s tr'
      else detail_fetches s tr'
  | _ :: tr' => detail_fetches s tr'
  end.

(** The post helper of a slot was entered: its first step is either the
    warning that the channel is not configured or [self.get_channel]. *)
Definition enters (s : slot) (ev : Event) : bool :=
  match ev with
  | EvGetChannel s' _ _ => slot_eqb s s'
  | EvLog WARNING msg => (msg =? Word s ++ " channel ID not configured")%string
  | _ => false
  end.

Definition post_attempted (s : slot) (tr : list Event) : bool :=
  existsb (enters s) tr.

(** An exception left the post helper of a slot: the builder raised, or
    [channel.send] raised something that is not a [discord.HTTPException]. *)
Definition escapes (s : slot) (ev : Event) : bool :=
  match ev with
  | EvEmbed s' _ _ _ (Err _) => slot_eqb s s'
  | EvSend s' _ _ (Err e) => slot_eqb s s' && negb (is_HTTPException e)
  | _ => false
  end.

Definition post_raised (s : slot) (tr : list Event) : bool :=
  existsb (escapes s) tr.

(** *** Environments and bots for the examples *)

Definition channel_of (s : slot) (id : Z) : Channel :=
  {| channel_id := id; channel_name := "boosted-" ++ word s |}.

Definition embed_of (name : string) : Embed :=
  JDict [("title", JStr name)].

(** The number of [channel.send] calls of a history. *)
Definition count_sends (tr : list Event) : nat :=
  (List.length (sends Creature tr) + List.length (sends Boss tr))%nat.

(** An environment with the same summary on every fetch, every channel
    found, no details, a builder that does not raise, and whose [n]-th
    [channel.send] (from 0) is answered by [send n]. *)
Definition env_sending (boosted_data : option BoostedData)
    (send : nat -> slot -> result unit) : Env :=
  {| api_get_boosted_creatures := fun _ => boosted_data;
     api_get_creature_details := fun _ _ _ => JNull;
     get_channel := fun _ s id => Some (channel_of s id);
     create_embed := fun _ _ name _ _ => Ok (embed_of name);
     channel_send := fun tr s _ _ => send (count_sends tr) s |}.

Definition always_sent : nat -> slot -> result unit := fun _ _ => Ok tt.

Definition summary (creature boss : option string) : BoostedData :=
  {| boosted_creature := creature;
     boosted_boss := boss;
     timestamp := Some "2024-01-01T10:00:00Z" |}.

(** A bot with both channels configured that posted "Bear" last and no
    boss yet. *)
Definition bot_bear : Bot :=
  {| creature_channel_id := 111;
     boss_channel_id := 222;
     last_posted_creature := Some "Bear";
     last_posted_boss := None |}.

Definition missing_permissions : exn :=
  Exn Forbidden "403 Forbidden (error code: 50013): Missing Permissions".

Definition connection_reset : exn :=
  Exn OSError "[Errno 104] Connection reset by peer".

(** The creature send is refused with [discord.Forbidden]. *)
Definition env_forbidden : Env :=
  env_sending (Some (summary (Some "Wolf") (Some "Yeti")))
    (fun _ s => match s with
                | Creature => Err missing_permissions
                | Boss => Ok tt
                end).

(** The creature send dies of a connection error, which is not a
    [discord.HTTPException]. *)
Definition env_connection_reset : Env :=
  env_sending (Some (summary (Some "Wolf") (Some "Yeti")))
    (fun _ s => match s with
                | Creature => Err connection_reset
                | Boss => Ok tt
                end).


(** The summary has a boss and no creature. *)
Definition env_boss_only : Env :=
  env_sending (Some (summary None (Some "Yeti"))) always_sent.

(** *** Two calls on one event loop

    The coroutines of one bot run on one thread.  A call runs alone from
    one [await] that leaves the program to the next; while it waits there
    the event loop may run another call.  The awaits that leave the
    program are the fetches and [channel.send]; [self.get_channel], the
    embed builder, the logger and the accesses to [self] and [result] do
    not suspend.  There is no lock in [TibiaBot]. *)

Definition suspends {X} (eff : MainE X) : bool :=
  match eff with
  | GetBoostedCreatures => true
  | GetCreatureDetails _ _ => true
  | ChannelSend _ _ _ => true
  | _ => false
  end.

(** Run a coroutine up to its next suspension. *)
Fixpoint settle {A} (env : Env) (p : Prog MainE A) (st : State)
  : Prog MainE A * State :=
  match p with
  | Vis eff k =>
      if suspends eff then (p, st)
      else let (x, st') := handle env eff st in settle env (k x) st'
  | _ => (p, st)
  end.

(** One turn of a coroutine: the call it waits for is answered (or, on its
    first turn, its first step is made) and it runs to its next suspension
    or to its end.  A finished coroutine stays as it is. *)
Definition resume {A} (env : Env) (p : Prog MainE A) (st : State)
  : Prog MainE A * State :=
  match p with
  | Vis eff k => let (x, st') := handle env eff st in settle env (k x) st'
  | _ => (p, st)
  end.

(** [n] turns in a row. *)
Fixpoint turns {A} (env : Env) (n : nat) (p : Prog MainE A) (st : State)
  : Prog MainE A * State :=
  match n with
  | O => (p, st)
  | S n' => let (p', st') := resume env p st in turns env n' p' st'
  end.

(** Two calls of [post_boosted_updates] on the same bot: what is shared
    ([self] and the history) and, for each call, what is left of it and its
    local [result]. *)
Record Loop : Type :=
  { loop_self : Bot;
    loop_trace : list Event;
    task_a : Prog MainE UpdateResult * UpdateResult;
    task_b : Prog MainE UpdateResult * UpdateResult }.

Inductive turn : Type := First | Second.

Definition empty_result : UpdateResult :=
  {| creature_posted := false; boss_posted := false; errors := [] |}.

Definition spawn (force_a force_b : bool) (bot : Bot) (tr : list Event)
  : Loop :=
  {| loop_self := bot;
     loop_trace := tr;
     task_a := (post_boosted_updates force_a, empty_result);
     task_b := (post_boosted_updates force_b, empty_result) |}.

(** The event loop gives one turn to a call. *)
Definition give_turn (env : Env) (t : turn) (l : Loop) : Loop :=
  match t with
  | First =>
      let (p, st) :=
        resume env (fst (task_a l))
               {| st_self := loop_self l;
                  st_result := snd (task_a l);
                  st_trace := loop_trace l |} in
      {| loop_self := st_self st;
         loop_trace := st_trace st;
         task_a := (p, st_result st);
         task_b := task_b l |}
  | Second =>
      let (p, st) :=
        resume env (fst (task_b l))
               {| st_self := loop_self l;
                  st_result := snd (task_b l);
                  st_trace := loop_trace l |} in
      {| loop_self := st_self st;
         loop_trace := st_trace st;
         task_a := task_a l;
         task_b := (p, st_result st) |}
  end.

Fixpoint run_loop (env : Env) (schedule : list turn) (l : Loop) : Loop :=
  match schedule with
  | [] => l
  | t :: rest => run_loop env rest (give_turn env t l)
  end.

(** What a call returned, if it is finished. *)
Definition returned (task : Prog MainE UpdateResult * UpdateResult)
  : option UpdateResult :=
  match fst task with
  | Ret r => Some r
  | _ => None
  end.




(** "Wolf" is boosted, no boss, every send goes through. *)
Definition env_wolf : Env :=
  env_sending (Some (summary (Some "Wolf") None)) always_sent.

(** *** The rest of [main.py] *)

(** [TibiaBot.__init__], for the attributes modelled here: the two channel
    ids are what [int(os.getenv(..., '0'))] gave, and nothing was posted
    yet. *)
Definition __init__ (creature_channel_id boss_channel_id : Z) : Bot :=
  {| creature_channel_id := creature_channel_id;
     boss_channel_id := boss_channel_id;
     last_posted_creature := None;
     last_posted_boss := None |}.

(** The events of a slot: the channel lookup, the detail fetch, the builder
    call and the send of its post helper. *)
Definition of_slot (s : slot) (ev : Event) : bool :=
  match ev with
  | EvGetChannel s' _ _ => slot_eqb s s'
  | EvGetDetails s' _ _ => slot_eqb s s'
  | EvEmbed s' _ _ _ _ => slot_eqb s s'
  | EvSend s' _ _ _ => slot_eqb s s'
  | _ => false
  end.

(** *** The slash commands

    [update_command] and [status_command] are coroutines of their own:
    they talk to the interaction that invoked them and call into the bot
    ([interaction.client]).  The string literals are the bytes of the
    source file. *)

Inductive CmdE : Type -> Type :=
| Defer : CmdE (result unit)
    (* await interaction.response.defer() *)
| PostBoostedUpdates (force_update : bool) : CmdE (result UpdateResult)
    (* await bot.post_boosted_updates(force_update=...) *)
| ApiGetBoostedCreatures : CmdE (option BoostedData)
    (* await bot.tibia_api.get_boosted_creatures() *)
| UtcNow : CmdE string
    (* datetime.utcnow() *)
| FollowupSend (content : string) : CmdE (result unit)
    (* await interaction.followup.send(content, ephemeral=True) *)
| FollowupSendEmbed (embed : Embed) : CmdE (result unit)
    (* await interaction.followup.send(embed=embed, ephemeral=True) *)
| LogError (msg : string) : CmdE unit.

(** What a command did to its interaction, and what it logged. *)
Inductive Reply : Type :=
| EvDefer (r : result unit)
| EvFollowup (content : string) (r : result unit)
| EvFollowupEmbed (embed : Embed) (r : result unit)
| EvLogError (msg : string).

(** The interaction and the clock: the follow-up webhook answers by what
    was sent to the interaction before. *)
Record Interaction : Type :=
  { response_defer : result unit;
    followup_send : list Reply -> string -> result unit;
    followup_send_embed : list Reply -> Embed -> result unit;
    utcnow : string }.

(** The state a command runs in: the bot, the history of the bot and the
    history of the interaction. *)
Record CmdState : Type :=
  { cmd_self : Bot; cmd_trace : list Event; cmd_replies : list Reply }.

Definition reply_event (ev : Reply) (st : CmdState) : CmdState :=
  {| cmd_self := cmd_self st;
     cmd_trace := cmd_trace st;
     cmd_replies := (cmd_replies st ++ [ev])%list |}.

(** A call into the bot runs [post_boosted_updates] to its end on the bot
    and the history of the command. *)
Definition handle_cmd (env : Env) (i : Interaction) X (eff : CmdE X)
    (st : CmdState) : X * CmdState :=
  match eff in CmdE X return X * CmdState with
  | Defer => (response_defer i, reply_event (EvDefer (response_defer i)) st)
  | PostBoostedUpdates force_update =>
      let (out, st') := call env force_update (cmd_self st) (cmd_trace st) in
      (match out with Returned r => Ok r | Raised e => Err e end,
       {| cmd_self := st_self st';
          cmd_trace := st_trace st';
          cmd_replies := cmd_replies st |})
  | ApiGetBoostedCreatures =>
      let r := api_get_boosted_creatures env (cmd_trace st) in
      (r, {| cmd_self := cmd_self st;
             cmd_trace := (cmd_trace st ++ [EvGetBoosted r])%list;
             cmd_replies := cmd_replies st |})
  | UtcNow => (utcnow i, st)
  | FollowupSend content =>
      let r := followup_send i (cmd_replies st) content in
      (r, reply_event (EvFollowup content r) st)
  | FollowupSendEmbed embed =>
      let r := followup_send_embed i (cmd_replies st) embed in
      (r, reply_event (EvFollowupEmbed embed r) st)
  | LogError msg => (tt, reply_event (EvLogError msg) st)
  end.

Definition newline : string := String (ascii_of_nat 10) EmptyString.

(** The list [response_parts] of [update_command]. *)
Definition response_parts (result : UpdateResult) : list string :=
  let response_parts := [] in
  let response_parts :=
    (response_parts ++
     [if creature_posted result
      then "‚úÖ Boosted creature updated"
      else "‚ö†Ô∏è No creature update needed"])%list in
  let response_parts :=
    (response_parts ++
     [if boss_posted result
      then "‚úÖ Boosted boss updated"
      else "‚ö†Ô∏è No boss update needed"])%list in
  match errors result with
  | [] => response_parts
  | _ =>
      (response_parts ++
       map (fun error => ("‚ùå " ++ error)%string) (errors result))%list
  end.

(** [update_command(interaction)] *)
Definition update_command : Prog CmdE unit :=
  deferred <- perform Defer ;;
  eval deferred ;;
  try_except
    (called <- perform (PostBoostedUpdates true) ;;
     result <- eval called ;;
     let response := String.concat newline (response_parts result) in
     sent <- perform (FollowupSend response) ;;
     eval sent)
    (fun e =>
       perform (LogError ("Error in update command: " ++ exn_str e)) ;;
       sent <- perform (FollowupSend ("‚ùå Command failed: " ++ exn_str e)) ;;
       eval sent).

(** [str(value)] for a value that is a string or [None]. *)
Definition py_str_opt (value : option string) : string :=
  match value with Some v => v | None => "None" end.

(** A field of a [discord.Embed]: [add_field] keeps [str(value)], so a
    value [None] is the text "None". *)
Definition embed_field (name : string) (value : option string)
    (inline : bool) : Json :=
  JDict [("name", JStr name);
         ("value", JStr (py_str_opt value));
         ("inline", JBool inline)].

(** The embed [status_command] builds.  The summary of
    [get_boosted_creatures] has its three keys whatever their values, so
    [boosted_data.get('boosted_creature', 'Unknown')] is the value of the
    key. *)
Definition status_embed (boosted_data : BoostedData) (now : string) : Embed :=
  let creature := observed Creature boosted_data in
  let boss := observed Boss boosted_data in
  JDict [("title", JStr "üìä Current Boosted Status");
         ("color", JNum 0x00ff88);
         ("timestamp", JStr now);
         ("fields",
          JList [embed_field "ü¶é Boosted Creature" creature true;
                 embed_field "üëπ Boosted Boss" boss true;
                 embed_field "‚è∞ Next Reset"
                             (Some "Daily at 10:00 CEST") false]);
         ("footer", JDict [("text", JStr "Data from TibiaData API")])].

(** [status_command(interaction)] *)
Definition status_command : Prog CmdE unit :=
  deferred <- perform Defer ;;
  eval deferred ;;
  try_except
    (boosted_data <- perform ApiGetBoostedCreatures ;;
     match boosted_data with
     | None =>
         sent <- perform (FollowupSend "‚ùå Failed to fetch boosted data") ;;
         eval sent
     | Some boosted_data =>
         now <- perform UtcNow ;;
         sent <- perform (FollowupSendEmbed (status_embed boosted_data now)) ;;
         eval sent
     end)
    (fun e =>
       perform (LogError ("Error in status command: " ++ exn_str e)) ;;
       sent <- perform (FollowupSend ("‚ùå Command failed: " ++ exn_str e)) ;;
       eval sent).

(** A command invoked on the bot [bot] after the history [tr], run to its
    end. *)
Definition invoke (env : Env) (i : Interaction) (command : Prog CmdE unit)
    (bot : Bot) (tr : list Event) : outcome unit * CmdState :=
  run (handle_cmd env i) command
      {| cmd_self := bot; cmd_trace := tr; cmd_replies := [] |}.

(** The follow-up messages of a command, in order. *)
Fixpoint followups (l : list Reply) : list (result unit) :=
  match l with
  | [] => []
  | EvFollowup _ r :: l' => r :: followups l'
  | EvFollowupEmbed _ r :: l' => r :: followups l'
  | _ :: l' => followups l'
  end.

(** *** Starting up

    [TibiaBot.setup_hook]: the command tree and the scheduler
    ([bot/scheduler.py]) are outside this development; their two calls are
    answered by the environment and may raise. *)

Inductive SetupE : Type -> Type :=
| TreeSync : SetupE (result unit)
    (* await self.tree.sync() *)
| SchedulerStart : SetupE (result unit)
    (* await self.scheduler.start() *)
| SetupLog (lvl : level) (msg : string) : SetupE unit.

Inductive SetupEvent : Type :=
| EvSync (r : result unit)
| EvStart (r : result unit)
| EvSetupLog (lvl : level) (msg : string).

Record SetupEnv : Type :=
  { tree_sync : result unit;
    scheduler_start : list SetupEvent -> result unit }.

Definition handle_setup (env : SetupEnv) X (eff : SetupE X)
    (tr : list SetupEvent) : X * list SetupEvent :=
  match eff in SetupE X return X * list SetupEvent with
  | TreeSync => (tree_sync env, (tr ++ [EvSync (tree_sync env)])%list)
  | SchedulerStart =>
      let r := scheduler_start env tr in (r, (tr ++ [EvStart r])%list)
  | SetupLog lvl msg => (tt, (tr ++ [EvSetupLog lvl msg])%list)
  end.

(** [TibiaBot.setup_hook] *)
Definition setup_hook : Prog SetupE unit :=
  try_except
    (synced <- perform TreeSync ;;
     eval synced ;;
     perform (SetupLog INFO "Slash commands synced successfully") ;;
     started <- perform SchedulerStart ;;
     eval started ;;
     perform (SetupLog INFO "Scheduler started successfully"))
    (fun e => perform (SetupLog ERROR ("Error in setup_hook: " ++ exn_str e))).

(** The scheduler was asked to start. *)
Definition start_requested (tr : list SetupEvent) : bool :=
  existsb (fun ev => match ev with EvStart _ => true | _ => false end) tr.

(** The scheduler was started: its [start] returned. *)
Definition scheduler_started (tr : list SetupEvent) : bool :=
  existsb (fun ev => match ev with EvStart (Ok _) => true | _ => false end) tr.

(** The error lines of the log. *)
Fixpoint setup_errors (tr : list SetupEvent) : list string :=
  match tr with
  | [] => []
  | EvSetupLog ERROR msg :: tr' => msg :: setup_errors tr'
  | _ :: tr' => setup_errors tr'
  end.

(** *** What each of two calls observed *)

Definition turn_eqb (a b : turn) : bool :=
  match a, b with
  | First, First | Second, Second => true
  | _, _ => false
  end.

(** The summaries fetched in a history, in order. *)
Fixpoint summaries (tr : list Event) : list (option BoostedData) :=
  match tr with
  | [] => []
  | EvGetBoosted r :: tr' => r :: summaries tr'
  | _ :: tr' => summaries tr'
  end.

(** What the call [t] observed under a schedule: the summaries fetched in
    its own turns. *)
Fixpoint observations (env : Env) (t : turn) (schedule : list turn) (l : Loop)
  : list (option BoostedData) :=
  match schedule with
  | [] => []
  | t' :: rest =>
      let l' := give_turn env t' l in
      ((if turn_eqb t t'
        then summaries (new_events (loop_trace l) (loop_trace l'))
        else []) ++ observations env t rest l')%list
  end.

(** The two calls take turns until the first has returned; the second
    still waits for its last send. *)
Definition until_first_returns : list turn :=
  [First; Second; First; Second; First; Second;
   First; Second; First; Second; First].


(** The boosted creature changes from "Wolf" to "Fox" after the first
    fetch of the history; the boss is "Yeti" throughout and every send
    goes through. *)
Definition env_wolf_then_fox : Env :=
  {| api_get_boosted_creatures :=
       fun tr =>
         match summaries tr with
         | [] => Some (summary (Some "Wolf") (Some "Yeti"))
         | _ => Some (summary (Some "Fox") (Some "Yeti"))
         end;
     api_get_creature_details := fun _ _ _ => JNull;
     get_channel := fun _ s id => Some (channel_of s id);
     create_embed := fun _ _ name _ _ => Ok (embed_of name);
     channel_send := fun _ _ _ _ => Ok tt |}.

(** *** The sentences of the specification, word for word *)


(** "On send failure: do not update the last-posted value, append an error
    message, leave the posted flag false." *)
Definition spec_send_failure (env : Env) (force_update : bool) (bot : Bot)
    (tr : list Event) (s : slot) : Prop :=
  forall r st' channel embed e,
    call env force_update bot tr = (Returned r, st') ->
    In (EvSend s channel embed (Err e)) (new_events tr (st_trace st')) ->
    last_posted s (st_self st') = last_posted s bot
    /\ errors r <> []
    /\ posted s r = false.

(** "A notification for slot S fires iff (force is requested) OR (the newly
    observed value is present AND differs from the stored value)." *)
Definition spec_should_post (force_update : bool) (name last : option string)
  : bool :=
  force_update
  || (match name with Some _ => true | None => false end && py_ne name last).

Definition spec_fires (env : Env) (force_update : bool) (bot : Bot)
    (tr : list Event) (s : slot) : Prop :=
  forall r st' boosted_data,
    call env force_update bot tr = (Returned r, st') ->
    api_get_boosted_creatures env tr = Some boosted_data ->
    post_attempted s (new_events tr (st_trace st'))
    = spec_should_post force_update (observed s boosted_data)
                       (last_posted s bot).



(** "After every reconcile call, if the returned result has
    creature_posted = true then last_posted_creature equals the creature
    name observed in that call's summary", and the same for the boss: for
    the first of two calls under a schedule, once it has returned. *)
Definition spec_flag_means_recorded (env : Env) (force_a force_b : bool)
    (bot : Bot) (schedule : list turn) : Prop :=
  let l0 := spawn force_a force_b bot [] in
  let l := run_loop env schedule l0 in
  forall r boosted_data,
    returned (task_a l) = Some r ->
    observations env First schedule l0 = [Some boosted_data] ->
    forall s,
      posted s r = true ->
      last_posted s (loop_self l) = observed s boosted_data.

End TibiaBot.

(* ================================================================== *)
(** * Properties *)

(** ** Running a coroutine *)

Module CoroutineFacts.
Import Py Coroutine.

Section Run.
Context {E : Type -> Type} {S : Type}.
Variable handle : forall X, E X -> S -> X * S.

Lemma run_bind {A B} (p : Prog E A) (f : A -> Prog E B) (s : S) :
  run handle (bind p f) s =
  match run handle p s with
  | (Returned a, s') => run handle (f a) s'
  | (Raised e, s') => (Raised e, s')
  end.
Proof.
  revert s; induction p as [a | e | X eff k IH]; intros s; simpl; auto.
  destruct (handle eff s) as [x s']. apply IH.
Qed.

Lemma run_try_except {A} (p : Prog E A) (h : exn -> Prog E A) (s : S) :
  run handle (try_except p h) s =
  match run handle p s with
  | (Returned a, s') => (Returned a, s')
  | (Raised e, s') => run handle (h e) s'
  end.
Proof.
  revert s; induction p as [a | e | X eff k IH]; intros s; simpl; auto.
  destruct (handle eff s) as [x s']. apply IH.
Qed.
Lemma run_try_bind {A B} (p : Prog E A) (f : A -> Prog E B)
    (h : exn -> Prog E B) (s : S) :
  run handle (try_except (bind p f) h) s =
  match run handle p s with
  | (Returned a, s') => run handle (try_except (f a) h) s'
  | (Raised e, s') => run handle (h e) s'
  end.
Proof.
  revert s; induction p as [a | e | X eff k IH]; intros s; simpl; auto.
  destruct (handle eff s) as [x s']. apply IH.
Qed.
End Run.

End CoroutineFacts.

(** ** The fetch client *)

Module TibiaAPIFacts.
Import Py Coroutine CoroutineFacts TibiaAPI.
Local Open Scope prog_scope.

Lemma gets_app (a b : list Event) : gets (a ++ b) = (gets a ++ gets b)%list.
Proof.
  induction a as [| ev a IH]; simpl; auto.
  destruct ev; simpl; rewrite IH; reflexivity.
Qed.

Lemma urls_app (a b : list Event) : urls (a ++ b) = (urls a ++ urls b)%list.
Proof.
  induction a as [| ev a IH]; simpl; auto.
  destruct ev; simpl; rewrite IH; reflexivity.
Qed.

Lemma attempt_try_exec (env : Env) (url : string) (attempt : Z)
    (tr : list Event) :
  let r := http env tr url in
  exists rest,
    exec env (attempt_try url attempt) tr
      = (Returned (flow_of r), (tr ++ EvGet url r :: rest)%list)
    /\ gets rest = [] /\ urls rest = [].
Proof.
  intros r. unfold exec, attempt_try, flow_of, parsed_200, has_status.
  cbn [run try_except bind perform handle eval].
  fold r. destruct r as [response | e]; cbn.
  - destruct (status response =? 200) eqn:H200.
    + apply Z.eqb_eq in H200. rewrite H200.
      destruct (json response) as [data | e]; cbn.
      * exists []. auto.
      * destruct (is_TimeoutError e); [| destruct (is_ClientError e)];
          cbn; rewrite <- app_assoc; eexists; split; try reflexivity; auto.
    + destruct (status response =? 429); cbn;
        rewrite <- ?app_assoc; eexists; split; try reflexivity; auto.
  - destruct (is_TimeoutError e); [| destruct (is_ClientError e)];
      cbn; rewrite <- app_assoc; eexists; split; try reflexivity; auto.
Qed.

(** The retry loop: it never raises; it asks only for [url]; it either
    returns the body of the first answer that is a 200 with a body that
    parses, having asked nothing after it, or it asks once per attempt
    and returns [None]. *)
Lemma retry_loop_exec (env : Env) (url : string) (retries : Z)
    (attempts : list Z) (tr : list Event) :
  exists v new,
    exec env (retry_loop url retries attempts) tr
      = (Returned v, (tr ++ new)%list)
    /\ Forall (eq url) (urls new)
    /\ ((exists pre r,
           gets new = (pre ++ [r])%list
           /\ parsed_200 r = Some v
           /\ Forall (fun x => parsed_200 x = None) pre
           /\ (List.length pre < List.length attempts)%nat)
        \/ (v = JNull
            /\ List.length (gets new) = List.length attempts
            /\ Forall (fun x => parsed_200 x = None) (gets new))).
Proof.
  revert tr. induction attempts as [| attempt rest IH]; intros tr.
  - eexists; eexists; split; [reflexivity |]. cbn. split; auto.
  - unfold exec in *. cbn [retry_loop]. rewrite run_bind.
    destruct (attempt_try_exec env url attempt tr) as (logs & Hrun & Hg & Hu).
    unfold exec in Hrun. rewrite Hrun. clear Hrun.
    set (r := http env tr url) in *.
    unfold flow_of. destruct (parsed_200 r) as [data |] eqn:Hp.
    + exists data, (EvGet url r :: logs). cbn. rewrite Hg, Hu.
      split; [reflexivity |]. split; [auto |].
      left. exists [], r. cbn. repeat split; auto. lia.
    + assert (Hrest : forall tr',
                gets tr' = [] -> urls tr' = [] ->
                exists v new,
                  run (handle env) (retry_loop url retries rest)
                      (tr ++ EvGet url r :: logs ++ tr')%list
                    = (Returned v, (tr ++ new)%list)
                  /\ Forall (eq url) (urls new)
                  /\ ((exists pre r0,
                         gets new = (pre ++ [r0])%list
                         /\ parsed_200 r0 = Some v
                         /\ Forall (fun x => parsed_200 x = None) pre
                         /\ (List.length pre < S (List.length rest))%nat)
                      \/ (v = JNull
                          /\ List.length (gets new) = S (List.length rest)
                          /\ Forall (fun x => parsed_200 x = None) (gets new)))).
      { intros tr' Hg' Hu'.
        destruct (IH (tr ++ EvGet url r :: logs ++ tr')%list)
          as (v & new & Hrun & Hurl & Hcases).
        exists v, (EvGet url r :: logs ++ tr' ++ new)%list.
        split.
        { rewrite Hrun. f_equal. rewrite <- !app_assoc. cbn.
          rewrite <- !app_assoc. reflexivity. }
        cbn. rewrite !urls_app, !gets_app, Hg, Hu, Hg', Hu'. cbn.
        split; [constructor; auto |].
        destruct Hcases as [(pre & r0 & Hgets & Hp0 & Hpre & Hlen)
                           | (Hv & Hlen & Hall)].
        - left. exists (r :: pre), r0. rewrite Hgets. cbn.
          repeat split; auto. lia.
        - right. repeat split; auto. }
      destruct (has_status 429 r).
      * destruct (Hrest []) as (v & new & Hrun & H); auto.
        rewrite app_nil_r in Hrun. eauto.
      * rewrite run_bind.
        destruct (attempt <? retries); cbn [run perform handle].
        -- destruct (Hrest [EvSleep (2 ^ attempt)]) as (v & new & Hrun & H);
             auto.
           exists v, new. split; auto. rewrite <- Hrun. f_equal.
           rewrite <- app_assoc. reflexivity.
        -- destruct (Hrest []) as (v & new & Hrun & H); auto.
           rewrite app_nil_r in Hrun. eauto.
Qed.

Lemma length_range (n : Z) : List.length (range n) = Z.to_nat n.
Proof. unfold range. rewrite length_map, length_seq. reflexivity. Qed.

(** C4 (amended).  [_make_request] never raises and asks only for the URL
    of its endpoint; it makes at most [retries + 1] requests (none when
    that is not positive); it returns the parsed body of the first answer
    that is a 200 whose body parses, and asks nothing after it; a 200
    whose body does not parse counts as a failed attempt; when no attempt
    succeeds it returns [None] after exactly [retries + 1] requests.  An
    endpoint answering 429, 429, 200 gives the body of the 200 after
    exactly 3 requests with [retries = 3]; an endpoint answering 500 every
    time gives [None] after exactly 3 requests with [retries = 2]. *)
Theorem make_request_retry_bound :
  (forall (env : Env) (endpoint : string) (retries : Z) (tr : list Event),
     exists v new,
       exec env (_make_request endpoint retries) tr
         = (Returned v, (tr ++ new)%list)
       /\ Forall (eq (BASE_URL ++ "/" ++ lstrip_char "/" endpoint)) (urls new)
       /\ Z.of_nat (List.length (gets new)) <= Z.max 0 (retries + 1)
       /\ ((exists pre r,
              gets new = (pre ++ [r])%list
              /\ parsed_200 r = Some v
              /\ Forall (fun x => parsed_200 x = None) pre)
           \/ (v = JNull
               /\ Z.of_nat (List.length (gets new)) = Z.max 0 (retries + 1)
               /\ Forall (fun x => parsed_200 x = None) (gets new))))
  /\ (forall (endpoint : string) (body : Json),
        let r := exec (env_429_429_200 body) (_make_request endpoint 3) [] in
        fst r = Returned body /\ List.length (gets (snd r)) = 3%nat)
  /\ (forall (endpoint : string),
        let r := exec env_always_500 (_make_request endpoint 2) [] in
        fst r = Returned JNull /\ List.length (gets (snd r)) = 3%nat).
Proof.
  split; [| split].
  - intros env endpoint retries tr. unfold _make_request.
    destruct (retry_loop_exec env (BASE_URL ++ "/" ++ lstrip_char "/" endpoint)
                retries (range (retries + 1)) tr)
      as (v & new & Hrun & Hurl & Hcases).
    rewrite length_range in Hcases.
    exists v, new. repeat split; auto.
    + destruct Hcases as [(pre & r & Hg & _ & _ & Hlen) | (_ & Hlen & _)].
      * rewrite Hg, length_app. cbn. lia.
      * lia.
    + destruct Hcases as [(pre & r & Hg & Hp & Hpre & _) | (Hv & Hlen & Hall)].
      * left. exists pre, r. auto.
      * right. repeat split; auto. lia.
  - intros endpoint body. cbv zeta. split; reflexivity.
  - intros endpoint. cbv zeta. split; reflexivity.
Qed.

(** C4, as the specification words it, fails: the first answer of this
    endpoint is a 200, its body does not parse, and [_make_request] goes on
    to a second request instead of stopping there. *)
Lemma make_request_first_200_counterexample :
  ~ spec_request_first_200 env_garbled_then_ok "creatures" 3.
Proof.
  intros H.
  destruct (H [] {| status := 200;
                    json := Err (Exn ValueError
                      "Expecting value: line 1 column 1 (char 0)") |}
              [Ok {| status := 200;
                     json := Ok (JDict [("creatures", JList [])]) |}])
    as [Hpost _]; try reflexivity.
  discriminate Hpost.
Qed.

Lemma make_request_returns (env : Env) (endpoint : string) (retries : Z)
    (tr : list Event) :
  exists v new,
    exec env (_make_request endpoint retries) tr
      = (Returned v, (tr ++ new)%list)
    /\ Forall (eq (BASE_URL ++ "/" ++ lstrip_char "/" endpoint)) (urls new).
Proof.
  unfold _make_request.
  destruct (retry_loop_exec env (BASE_URL ++ "/" ++ lstrip_char "/" endpoint)
              retries (range (retries + 1)) tr) as (v & new & Hrun & Hurl & _).
  eauto.
Qed.

(** What [get_creature_details] makes of the answer to its request. *)
Lemma creature_details_of_data (env : Env) (name : string) (data : Json)
    (tr : list Event) :
  let p :=
    try_except
      (c <- (if truthy data
             then eval (py_in "creature" data)
             else Ret false) ;;
       if c : bool then
         creature_info <- eval (py_getitem data "creature") ;;
         perform (Log INFO [Text "Fetched details for creature: ";
                            Text name]) ;;
         Ret creature_info
       else
         perform (Log WARNING [Text "No details found for creature: ";
                               Text name]) ;;
         Ret JNull)
      (fun e =>
         perform (Log ERROR [Text "Error fetching creature details for ";
                             Text name; Text ": "; Text (exn_str e)]) ;;
         Ret JNull) in
  exists logs,
    run (handle env) p tr
      = (Returned (wrapper_field "creature" data), (tr ++ logs)%list)
    /\ urls logs = [].
Proof.
  destruct data as [| b | n | s | l | d]; cbn.
  - eexists; split; [reflexivity | reflexivity].
  - destruct b; cbn; eexists; split; reflexivity.
  - destruct (n =? 0); cbn; eexists; split; reflexivity.
  - destruct (s =? "")%string; cbn;
      [| destruct (is_substring "creature" s); cbn];
      eexists; split; reflexivity.
  - destruct l as [| x l]; cbn;
      [| destruct (eq_str "creature" x || existsb (eq_str "creature") l); cbn];
      eexists; split; reflexivity.
  - destruct d as [| [k v] d]; cbn.
    + eexists; split; reflexivity.
    + destruct (k =? "creature")%string; cbn;
        [| destruct (lookup "creature" d); cbn];
        eexists; split; reflexivity.
Qed.

Lemma length_urls (tr : list Event) :
  List.length (urls tr) = List.length (gets tr).
Proof.
  induction tr as [| ev tr IH]; simpl; auto. destruct ev; simpl; auto.
Qed.

Lemma make_request_asks (env : Env) (endpoint : string) (tr : list Event) :
  exists v new,
    exec env (_make_request endpoint default_retries) tr
      = (Returned v, (tr ++ new)%list)
    /\ Forall (eq (BASE_URL ++ "/" ++ lstrip_char "/" endpoint)) (urls new)
    /\ urls new <> [].
Proof.
  unfold _make_request.
  destruct (retry_loop_exec env (BASE_URL ++ "/" ++ lstrip_char "/" endpoint)
              default_retries (range (default_retries + 1)) tr)
    as (v & new & Hrun & Hurl & Hcases).
  exists v, new. repeat split; auto.
  intros Hnil. apply (f_equal (@List.length _)) in Hnil.
  rewrite length_urls in Hnil. cbn in Hnil.
  destruct Hcases as [(pre & r & Hg & _) | (_ & Hlen & _)].
  - rewrite Hg, length_app in Hnil. cbn in Hnil. lia.
  - rewrite Hlen in Hnil. discriminate Hnil.
Qed.

Lemma get_creature_details_exec (env : Env) (name : string)
    (tr : list Event) :
  name <> "" ->
  let r := exec env (_make_request ("creature/" ++ formatted_name name)
                       default_retries) tr in
  exists logs,
    exec env (get_creature_details (Some name)) tr
      = (Returned (wrapper_field "creature" (value_of r)),
         (snd r ++ logs)%list)
    /\ urls logs = [].
Proof.
  intros Hne r. unfold get_creature_details.
  apply String.eqb_neq in Hne. rewrite Hne.
  unfold exec in *. rewrite run_try_bind.
  destruct (make_request_returns env ("creature/" ++ formatted_name name)
              default_retries tr) as (data & new & Hrun & _).
  unfold exec in Hrun. subst r. rewrite Hrun. unfold value_of. cbn [fst snd].
  apply creature_details_of_data.
Qed.

(** The two queries the controller uses never raise. *)
Lemma fetch_client_never_raises (env : Env) (tr : list Event) :
  (exists v tr', exec env get_boosted_creatures tr = (Returned v, tr'))
  /\ (forall name,
        exists v tr',
          exec env (get_creature_details name) tr = (Returned v, tr')).
Proof.
  split.
  - unfold get_boosted_creatures, exec. rewrite run_try_bind.
    destruct (make_request_returns env "world/Antica" default_retries tr)
      as (w & new1 & Hrun1 & _).
    unfold exec in Hrun1. rewrite Hrun1.
    destruct (boosted_creature_of w) as [c | e]; cbn [eval bind];
      [| cbn; eauto].
    rewrite run_try_bind.
    destruct (make_request_returns env "boostablebosses" default_retries
                (tr ++ new1)) as (b & new2 & Hrun2 & _).
    unfold exec in Hrun2. rewrite Hrun2.
    destruct (boosted_boss_of b) as [bo | e]; cbn [eval bind];
      [| cbn; eauto].
    destruct (truthy c || truthy bo); [| cbn; eauto].
    destruct (timestamp_of w) as [t | e]; cbn; eauto.
  - intros [name |]; [| cbn; eauto].
    destruct (String.eqb_spec name "") as [-> | Hne]; [cbn; eauto |].
    destruct (get_creature_details_exec env tr Hne) as (logs & Hrun & _).
    rewrite Hrun. eauto.
Qed.

(** C5 (amended).  [get_creature_details] lowercases its argument and
    replaces spaces with underscores (it does not trim); for a name that
    is not empty it asks only for [creature/<formatted name>] and returns
    the field [creature] of the answer, [None] when the answer is not a
    dictionary with that field; "Fire Elemental" and "fire_elemental" ask
    for the same path and give the same result; for [None] or the empty
    string it returns [None] and makes no request. *)
Theorem get_creature_details_request :
  (forall (env : Env) (name : string) (tr : list Event),
     name <> "" ->
     let r := exec env (_make_request ("creature/" ++ formatted_name name)
                          default_retries) tr in
     exists new,
       exec env (get_creature_details (Some name)) tr
         = (Returned (wrapper_field "creature" (value_of r)),
            (tr ++ new)%list)
       /\ urls new <> []
       /\ Forall (eq (BASE_URL ++ "/creature/" ++ formatted_name name))
                 (urls new))
  /\ formatted_name "Fire Elemental" = formatted_name "fire_elemental"
  /\ (forall (env : Env) (tr : list Event),
        let r1 := exec env (get_creature_details (Some "Fire Elemental")) tr in
        let r2 := exec env (get_creature_details (Some "fire_elemental")) tr in
        fst r1 = fst r2 /\ urls (snd r1) = urls (snd r2))
  /\ (forall (env : Env) (tr : list Event),
        exec env (get_creature_details None) tr = (Returned JNull, tr)
        /\ exec env (get_creature_details (Some "")) tr = (Returned JNull, tr)).
Proof.
  split; [| split; [| split]].
  - intros env name tr Hne r.
    destruct (get_creature_details_exec env tr Hne) as (logs & Hrun & Hlogs).
    fold r in Hrun.
    destruct (make_request_asks env ("creature/" ++ formatted_name name) tr)
      as (data & new & Hreq & Hurl & Hnonempty).
    fold r in Hreq. rewrite Hrun, Hreq. cbn [snd].
    exists (new ++ logs)%list. rewrite app_assoc. split; [reflexivity |].
    rewrite urls_app, Hlogs, app_nil_r. split; auto.
  - reflexivity.
  - intros env tr r1 r2. subst r1 r2.
    destruct (@get_creature_details_exec env "Fire Elemental" tr)
      as (logs1 & Hrun1 & Hlogs1); [discriminate |].
    destruct (@get_creature_details_exec env "fire_elemental" tr)
      as (logs2 & Hrun2 & Hlogs2); [discriminate |].
    rewrite Hrun1, Hrun2. cbn [fst snd].
    rewrite !urls_app, Hlogs1, Hlogs2. split; reflexivity.
  - intros env tr. split; reflexivity.
Qed.

(** The first part of C5 at the name "Bear" on an API that answers 404:
    the four requests all go to [creature/bear]. *)
Lemma get_creature_details_request_witness :
  exists new,
    exec (env_of_documents JNull JNull) (get_creature_details (Some "Bear")) []
      = (Returned JNull, new)
    /\ urls new <> []
    /\ Forall (eq "https://api.tibiadata.com/v4/creature/bear") (urls new).
Proof.
  destruct (proj1 get_creature_details_request
              (env_of_documents JNull JNull) "Bear" [])
    as (new & Hrun & Hne & Hall); [discriminate |].
  exists new. auto.
Defined.

(** C5, as the specification words it, fails: the name is not trimmed, so a
    leading space becomes a leading underscore of the path. *)
Lemma get_creature_details_trim_counterexample :
  ~ spec_details_path env_always_500 " Fire Elemental".
Proof.
  unfold spec_details_path. intros H.
  vm_compute in H. inversion H as [| x l Heq _]. discriminate Heq.
Qed.





(** *** More on the fetch client *)

Lemma sleeps_app (a b : list Event) :
  sleeps (a ++ b) = (sleeps a ++ sleeps b)%list.
Proof.
  induction a as [| ev a IH]; simpl; auto.
  destruct ev; simpl; rewrite IH; reflexivity.
Qed.

Lemma total_sleep_app (a b : list Event) :
  total_sleep (a ++ b) = total_sleep a + total_sleep b.
Proof.
  unfold total_sleep. rewrite sleeps_app.
  induction (sleeps a) as [| x l IH]; simpl; lia.
Qed.

(** One turn of the loop, with what it sleeps inside the [try]. *)
Lemma attempt_try_sleeps (env : Env) (url : string) (attempt : Z)
    (tr : list Event) :
  let r := http env tr url in
  exists rest,
    exec env (attempt_try url attempt) tr
      = (Returned (flow_of r), (tr ++ EvGet url r :: rest)%list)
    /\ sleeps rest = match flow_of r with
                     | FContinue => [2 ^ attempt]
                     | _ => []
                     end.
Proof.
  intros r. unfold exec, attempt_try, flow_of, parsed_200, has_status.
  cbn [run try_except bind perform handle eval].
  fold r. destruct r as [response | e]; cbn.
  - destruct (status response =? 200) eqn:H200.
    + apply Z.eqb_eq in H200. rewrite H200.
      destruct (json response) as [data | e]; cbn.
      * exists []. auto.
      * destruct (is_TimeoutError e); [| destruct (is_ClientError e)];
          cbn; rewrite <- app_assoc; eexists; split; try reflexivity; auto.
    + destruct (status response =? 429); cbn;
        rewrite <- ?app_assoc; eexists; split; try reflexivity; auto.
  - destruct (is_TimeoutError e); [| destruct (is_ClientError e)];
      cbn; rewrite <- app_assoc; eexists; split; try reflexivity; auto.
Qed.

(** The sleeps of the loop over the attempts [a], ..., [a + n - 1]. *)
Lemma retry_loop_sleeps (env : Env) (url : string) (retries : Z)
    (n a : nat) (tr : list Event) :
  exists v new,
    exec env (retry_loop url retries (map Z.of_nat (seq a n))) tr
      = (Returned v, (tr ++ new)%list)
    /\ Forall (power_in a (a + n)) (sleeps new)
    /\ StronglySorted Z.lt (sleeps new)
    /\ total_sleep new <= 2 ^ Z.of_nat (a + n) - 2 ^ Z.of_nat a.
Proof.
  revert a tr. induction n as [| n IH]; intros a tr.
  - exists JNull.
    exists [EvLog ERROR [Text "Failed to fetch data from "; Text url;
                         Text " after "; Text (str_of_Z (retries + 1));
                         Text " attempts"]].
    split; [reflexivity |].
    unfold total_sleep. cbn [sleeps fold_right]. rewrite Nat.add_0_r.
    split; [constructor |]. split; [constructor | lia].
  - unfold exec in *. cbn [seq map retry_loop]. rewrite run_bind.
    destruct (attempt_try_sleeps env url (Z.of_nat a) tr) as (logs & Hrun & Hs).
    unfold exec in Hrun. rewrite Hrun. clear Hrun.
    set (r := http env tr url) in *.
    assert (Hpow : 2 ^ Z.of_nat (a + S n) = 2 ^ Z.of_nat (S a + n))
      by (do 2 f_equal; lia).
    assert (Hpow' : 2 ^ Z.of_nat (S a) = 2 * 2 ^ Z.of_nat a).
    { rewrite Nat2Z.inj_succ, Z.pow_succ_r; lia. }
    assert (Hpos : 0 < 2 ^ Z.of_nat a) by (apply Z.pow_pos_nonneg; lia).
    assert (Hmono : 2 ^ Z.of_nat (S a) <= 2 ^ Z.of_nat (S a + n)).
    { apply Z.pow_le_mono_r; lia. }
    assert (Hrest : forall tr' : list Event,
              (sleeps (logs ++ tr') = [] \/
               sleeps (logs ++ tr') = [2 ^ Z.of_nat a]) ->
              exists v new,
                run (handle env)
                    (retry_loop url retries (map Z.of_nat (seq (S a) n)))
                    (tr ++ EvGet url r :: logs ++ tr')%list
                  = (Returned v, (tr ++ new)%list)
                /\ Forall (power_in a (a + S n)) (sleeps new)
                /\ StronglySorted Z.lt (sleeps new)
                /\ total_sleep new
                   <= 2 ^ Z.of_nat (a + S n) - 2 ^ Z.of_nat a).
    { intros tr' Hhere.
      destruct (IH (S a) (tr ++ EvGet url r :: logs ++ tr')%list)
        as (v & new & Hrun & Hin & Hsorted & Hsum).
      exists v, (EvGet url r :: (logs ++ tr') ++ new)%list.
      split.
      { rewrite Hrun. f_equal. rewrite <- !app_assoc. cbn.
        rewrite <- !app_assoc. reflexivity. }
      assert (Hin' : Forall (power_in a (a + S n)) (sleeps new)).
      { eapply Forall_impl; [| exact Hin].
        intros s (k & Hk & ->). exists k. split; [lia | reflexivity]. }
      assert (Hbig : Forall (fun s => 2 ^ Z.of_nat a < s) (sleeps new)).
      { eapply Forall_impl; [| exact Hin].
        intros s (k & Hk & ->).
        apply Z.pow_lt_mono_r; lia. }
      unfold total_sleep in *. cbn [sleeps].
      rewrite (sleeps_app (logs ++ tr') new).
      destruct Hhere as [-> | ->]; cbn [app fold_right].
      - split; [exact Hin' |]. split; [exact Hsorted | lia].
      - split; [| split].
        + constructor; auto. exists a. split; [lia | reflexivity].
        + constructor; auto.
        + lia. }
    unfold flow_of in *. destruct (parsed_200 r) as [data |] eqn:Hp.
    + exists data, (EvGet url r :: logs). cbn. unfold total_sleep.
      cbn [sleeps]. rewrite Hs. cbn.
      split; [reflexivity |].
      split; [constructor |]. split; [constructor | lia].
    + destruct (has_status 429 r).
      * destruct (Hrest []) as (v & new & Hrun & H).
        { right. rewrite app_nil_r. exact Hs. }
        rewrite app_nil_r in Hrun. eauto.
      * rewrite run_bind.
        destruct (Z.of_nat a <? retries); cbn [run perform handle].
        -- destruct (Hrest [EvSleep (2 ^ Z.of_nat a)]) as (v & new & Hrun & H).
           { right. rewrite sleeps_app, Hs. reflexivity. }
           exists v, new. split; auto. rewrite <- Hrun. f_equal.
           rewrite <- app_assoc. reflexivity.
        -- destruct (Hrest []) as (v & new & Hrun & H).
           { left. rewrite app_nil_r. exact Hs. }
           rewrite app_nil_r in Hrun. eauto.
Qed.

(** X1.  Exponential backoff is bounded: with a budget of [retries] the
    waits of [_make_request] are powers of two no greater than
    [2 ^ retries], each greater than the one before, and they add up to at
    most [2 ^ (retries + 1) - 1] seconds. *)
Theorem make_request_backoff_bound (env : Env) (endpoint : string)
    (retries : Z) (tr : list Event) :
  0 <= retries ->
  exists v new,
    exec env (_make_request endpoint retries) tr
      = (Returned v, (tr ++ new)%list)
    /\ Forall (fun s => exists k, 0 <= k <= retries /\ s = 2 ^ k) (sleeps new)
    /\ StronglySorted Z.lt (sleeps new)
    /\ total_sleep new <= 2 ^ (retries + 1) - 1.
Proof.
  intros Hr. unfold _make_request, range.
  destruct (retry_loop_sleeps env (BASE_URL ++ "/" ++ lstrip_char "/" endpoint)
              retries (Z.to_nat (retries + 1)) 0 tr)
    as (v & new & Hrun & Hin & Hsorted & Hsum).
  exists v, new. split; [exact Hrun |].
  split; [| split; [exact Hsorted |]].
  - eapply Forall_impl; [| exact Hin].
    intros s (k & Hk & ->). exists (Z.of_nat k). split; [lia | reflexivity].
  - cbn [Nat.add] in Hsum. rewrite Z2Nat.id in Hsum by lia.
    change (2 ^ Z.of_nat 0) with 1 in Hsum. exact Hsum.
Qed.

(** X1 on an API that answers 429 every time, with the default budget: the
    waits are 1, 2, 4 and 8 seconds, the bound is reached. *)
Lemma make_request_backoff_bound_witness :
  exists v new,
    exec env_always_429 (_make_request "creatures" 3) []
      = (Returned v, new)
    /\ sleeps new = [1; 2; 4; 8]
    /\ total_sleep new <= 15.
Proof.
  destruct (@make_request_backoff_bound env_always_429 "creatures" 3 [])
    as (v & new & Hrun & _ & _ & Hsum); [lia |].
  exists v, new. split; [exact Hrun |].
  split; [| exact Hsum].
  vm_compute in Hrun. injection Hrun as <- <-. reflexivity.
Defined.

Lemma lstrip_slashes (n : nat) (endpoint : string) :
  lstrip_char "/" (slashes n ++ endpoint) = lstrip_char "/" endpoint.
Proof. induction n as [| n IH]; cbn; auto. Qed.

Lemma lstrip_no_leading_slash (s : string) :
  is_prefix "/" (lstrip_char "/" s) = false.
Proof.
  induction s as [| a s IH]; [reflexivity |].
  cbn [lstrip_char]. destruct (a =? "/")%char eqn:E; [exact IH |].
  change (is_prefix "/" (String a s)) with (("/" =? a)%char && true).
  rewrite Ascii.eqb_sym, E. reflexivity.
Qed.

(** X2.  Leading slashes of an endpoint do not count: with any number of
    them in front, [_make_request] is the same request, and the part of
    the URL after the base and its slash never starts with a slash. *)
Theorem make_request_leading_slashes (n : nat) (endpoint : string)
    (retries : Z) :
  _make_request (slashes n ++ endpoint) retries
  = _make_request endpoint retries
  /\ forall (env : Env) (tr : list Event),
       exists v new path,
         exec env (_make_request (slashes n ++ endpoint) retries) tr
           = (Returned v, (tr ++ new)%list)
         /\ Forall (eq (BASE_URL ++ "/" ++ path)) (urls new)
         /\ is_prefix "/" path = false
         /\ lstrip_char "/" endpoint = path.
Proof.
  split.
  - unfold _make_request. rewrite lstrip_slashes. reflexivity.
  - intros env tr.
    destruct (make_request_returns env (slashes n ++ endpoint) retries tr)
      as (v & new & Hrun & Hurl).
    exists v, new, (lstrip_char "/" endpoint).
    rewrite lstrip_slashes in Hurl.
    repeat split; auto using lstrip_no_leading_slash.
Qed.

(** What [get_all_creatures] makes of the answer to its request. *)
Lemma all_creatures_of_data (env : Env) (data : Json) (tr : list Event) :
  let p :=
    try_except
      (c <- (if truthy data
             then eval (py_in "creatures" data)
             else Ret false) ;;
       if c : bool then
         perform (Log INFO [Text "Fetched all creatures list"]) ;;
         creatures <- eval (py_getitem data "creatures") ;;
         Ret creatures
       else
         perform (Log WARNING [Text "Failed to fetch creatures list"]) ;;
         Ret JNull)
      (fun e =>
         perform (Log ERROR [Text "Error fetching all creatures: ";
                             Text (exn_str e)]) ;;
         Ret JNull) in
  exists logs,
    run (handle env) p tr
      = (Returned (wrapper_field "creatures" data), (tr ++ logs)%list)
    /\ urls logs = [].
Proof.
  destruct data as [| b | n | s | l | d]; cbn.
  - eexists; split; [rewrite <- ?app_assoc; reflexivity | reflexivity].
  - destruct b; cbn; eexists; (split; [rewrite <- ?app_assoc; reflexivity | reflexivity]).
  - destruct (n =? 0); cbn; eexists; (split; [rewrite <- ?app_assoc; reflexivity | reflexivity]).
  - destruct (s =? "")%string; cbn;
      [| destruct (is_substring "creatures" s); cbn];
      eexists; (split; [rewrite <- ?app_assoc; reflexivity | reflexivity]).
  - destruct l as [| x l]; cbn;
      [| destruct (eq_str "creatures" x || existsb (eq_str "creatures") l);
         cbn];
      eexists; (split; [rewrite <- ?app_assoc; reflexivity | reflexivity]).
  - destruct d as [| [k v] d]; cbn.
    + eexists; (split; [rewrite <- ?app_assoc; reflexivity | reflexivity]).
    + destruct (k =? "creatures")%string; cbn;
        [| destruct (lookup "creatures" d); cbn];
        eexists; (split; [rewrite <- ?app_assoc; reflexivity | reflexivity]).
Qed.

Lemma Forall_eq_repeat {X} (x : X) (l : list X) :
  Forall (eq x) l -> l = repeat x (List.length l).
Proof.
  induction 1 as [| y l Hy _ IH]; cbn; auto. subst y. f_equal. exact IH.
Qed.

(** A request with the default budget asks its URL one to four times. *)
Lemma make_request_default_urls (env : Env) (endpoint : string)
    (tr : list Event) :
  exists v new n,
    exec env (_make_request endpoint default_retries) tr
      = (Returned v, (tr ++ new)%list)
    /\ urls new = repeat (BASE_URL ++ "/" ++ lstrip_char "/" endpoint) n
    /\ (1 <= n <= 4)%nat.
Proof.
  unfold _make_request.
  destruct (retry_loop_exec env (BASE_URL ++ "/" ++ lstrip_char "/" endpoint)
              default_retries (range (default_retries + 1)) tr)
    as (v & new & Hrun & Hurl & Hcases).
  exists v, new, (List.length (urls new)).
  split; [exact Hrun |]. split; [apply Forall_eq_repeat; exact Hurl |].
  rewrite length_urls. rewrite length_range in Hcases.
  change (Z.to_nat (default_retries + 1)) with 4%nat in Hcases.
  destruct Hcases as [(pre & r & Hg & _ & _ & Hlen) | (_ & Hlen & _)].
  - rewrite Hg, length_app. cbn. lia.
  - lia.
Qed.

(** X3.  [get_all_creatures] never raises; it asks one to four times for
    [creatures] and for nothing else, and returns the field [creatures]
    of the answer, [None] when the answer is not a dictionary with that
    field. *)
Theorem get_all_creatures_request (env : Env) (tr : list Event) :
  let r := exec env (_make_request "creatures" default_retries) tr in
  exists new n,
    exec env get_all_creatures tr
      = (Returned (wrapper_field "creatures" (value_of r)), (tr ++ new)%list)
    /\ urls new = repeat (BASE_URL ++ "/creatures") n
    /\ (1 <= n <= 4)%nat.
Proof.
  intros r. unfold get_all_creatures, exec in *. rewrite run_try_bind.
  destruct (make_request_default_urls env "creatures" tr)
    as (data & new & n & Hrun & Hurl & Hn).
  unfold exec in Hrun. subst r. rewrite Hrun. unfold value_of. cbn [fst snd].
  destruct (all_creatures_of_data env data (tr ++ new)) as (logs & Hp & Hlogs).
  cbv zeta in Hp. rewrite Hp.
  exists (new ++ logs)%list, n. rewrite app_assoc.
  split; [reflexivity |]. rewrite urls_app, Hlogs, app_nil_r. auto.
Qed.

(** A full run of [get_boosted_creatures]: its requests and its result. *)
Lemma get_boosted_creatures_trace (env : Env) (tr : list Event) :
  exists res new n m,
    exec env get_boosted_creatures tr = (Returned res, (tr ++ new)%list)
    /\ urls new = (repeat world_url n ++ repeat bosses_url m)%list
    /\ (1 <= n <= 4)%nat
    /\ (m <= 4)%nat
    /\ (m = 0%nat -> res = None)
    /\ (forall s, res = Some s ->
                  truthy (boosted_creature s) || truthy (boosted_boss s)
                  = true).
Proof.
  unfold get_boosted_creatures, exec. rewrite run_try_bind.
  destruct (make_request_default_urls env "world/Antica" tr)
    as (w & new1 & n & Hrun1 & Hurl1 & Hn).
  unfold exec in Hrun1. rewrite Hrun1.
  change (BASE_URL ++ "/" ++ lstrip_char "/" "world/Antica")
    with world_url in Hurl1.
  destruct (boosted_creature_of w) as [c | e]; cbn [eval bind].
  - rewrite run_try_bind.
    destruct (make_request_default_urls env "boostablebosses" (tr ++ new1))
      as (b & new2 & m & Hrun2 & Hurl2 & Hm).
    unfold exec in Hrun2. rewrite Hrun2.
    change (BASE_URL ++ "/" ++ lstrip_char "/" "boostablebosses")
      with bosses_url in Hurl2.
    assert (Hdone : forall res log,
              (forall s, res = Some s ->
                         truthy (boosted_creature s)
                         || truthy (boosted_boss s) = true) ->
              exists res' new n' m',
                (Returned res, (((tr ++ new1) ++ new2) ++ [EvLog (fst log) (snd log)])%list)
                = (Returned res', (tr ++ new)%list)
                /\ urls new = (repeat world_url n' ++ repeat bosses_url m')%list
                /\ (1 <= n' <= 4)%nat
                /\ (m' <= 4)%nat
                /\ (m' = 0%nat -> res' = None)
                /\ (forall s, res' = Some s ->
                              truthy (boosted_creature s)
                              || truthy (boosted_boss s) = true)).
    { intros res log Hres.
      exists res, (new1 ++ new2 ++ [EvLog (fst log) (snd log)])%list, n, m.
      rewrite <- !app_assoc. split; [reflexivity |].
      rewrite !urls_app, Hurl1, Hurl2. cbn. rewrite app_nil_r.
      split; [reflexivity |]. split; [lia |]. split; [lia |].
      split; [lia | exact Hres]. }
    destruct (boosted_boss_of b) as [bo | e]; cbn [eval bind].
    + destruct (truthy c || truthy bo) eqn:Htruthy.
      * destruct (timestamp_of w) as [ts | e]; cbn.
        -- apply (Hdone _ (INFO, _)). intros s [= <-]. exact Htruthy.
        -- apply (Hdone None (ERROR, _)). discriminate.
      * cbn. apply (Hdone None (WARNING, _)). discriminate.
    + cbn. apply (Hdone None (ERROR, _)). discriminate.
  - cbn. exists None. eexists. exists n, 0%nat.
    split; [rewrite <- app_assoc; reflexivity |].
    rewrite urls_app, Hurl1. cbn.
    split; [reflexivity |]. split; [lia |]. split; [lia |].
    split; [reflexivity | discriminate].
Qed.

(** X4.  [get_boosted_creatures] asks for the world first, one to four
    times, then for the boostable bosses, at most four times, and for
    nothing else; it skips the bosses only when it returns [None]. *)
Theorem get_boosted_creatures_requests (env : Env) (tr : list Event) :
  exists res new n m,
    exec env get_boosted_creatures tr = (Returned res, (tr ++ new)%list)
    /\ urls new = (repeat world_url n ++ repeat bosses_url m)%list
    /\ (1 <= n <= 4)%nat
    /\ (m <= 4)%nat
    /\ (m = 0%nat -> res = None).
Proof.
  destruct (get_boosted_creatures_trace env tr)
    as (res & new & n & m & Hrun & Hurls & Hn & Hm & Hskip & _).
  exists res, new, n, m. auto.
Qed.

(** X5.  A summary that [get_boosted_creatures] returns is never empty:
    its creature or its boss is a true value. *)
Theorem get_boosted_creatures_not_empty (env : Env) (tr : list Event)
    (s : BoostedSummary) :
  fst (exec env get_boosted_creatures tr) = Returned (Some s) ->
  truthy (boosted_creature s) || truthy (boosted_boss s) = true.
Proof.
  destruct (get_boosted_creatures_trace env tr)
    as (res & new & n & m & Hrun & _ & _ & _ & _ & Htruthy).
  rewrite Hrun. cbn [fst]. intros [= ->]. apply Htruthy. reflexivity.
Qed.

(** X5 on an API that serves the world document and no bosses document. *)
Lemma get_boosted_creatures_not_empty_witness :
  truthy (JStr "Bear") || truthy JNull = true.
Proof.
  apply (@get_boosted_creatures_not_empty
           (env_of_documents (world_document "Bear") JNull) []
           {| boosted_creature := JStr "Bear";
              boosted_boss := JNull;
              timestamp := JStr "2024-01-01T10:00:00Z" |}).
  vm_compute. reflexivity.
Defined.

Lemma format_char_facts (c : ascii) :
  let f := lower_char (if (c =? " ")%char then "_"%char else c) in
  (f =? " ")%char = false
  /\ is_upper f = false
  /\ lower_char (if (f =? " ")%char then "_"%char else f) = f.
Proof.
  destruct c as [[] [] [] [] [] [] [] []]; vm_compute; auto.
Qed.

(** X6.  For an ASCII name, the name [get_creature_details] puts in its
    path has no space and no capital, is as long as the name it was given,
    and is left as it is by a second normalisation. *)
Theorem formatted_name_normal (name : string) :
  contains_char " " (formatted_name name) = false
  /\ has_upper (formatted_name name) = false
  /\ formatted_name (formatted_name name) = formatted_name name
  /\ String.length (formatted_name name) = String.length name.
Proof.
  unfold formatted_name.
  induction name as [| c name (IH1 & IH2 & IH3 & IH4)]; [cbn; auto |].
  destruct (format_char_facts c) as (H1 & H2 & H3).
  cbn [replace_char lower contains_char has_upper String.length] in *.
  rewrite H3, H1, H2, IH1, IH2, IH3, IH4. auto.
Qed.

Lemma contains_char_app (c : ascii) (a b : string) :
  contains_char c (a ++ b) = contains_char c a || contains_char c b.
Proof.
  induction a as [| x a IH]; cbn; auto. rewrite IH.
  destruct (x =? c)%char; reflexivity.
Qed.

Lemma replace_char_removes (old new : ascii) (s : string) :
  (new =? old)%char = false ->
  contains_char old (replace_char old new s) = false.
Proof.
  intros Hne. induction s as [| c s IH]; cbn; auto.
  rewrite IH. destruct (c =? old)%char eqn:E; [rewrite Hne | rewrite E];
    reflexivity.
Qed.

(** X7.  [get_creature_image_url] gives the empty string for [None] and
    for the empty name; for any other name it gives the redirect URL of
    the name with its spaces replaced by underscores and capitals kept,
    followed by [.gif], and this URL holds no space. *)
Theorem image_url_no_space :
  get_creature_image_url None = ""
  /\ get_creature_image_url (Some "") = ""
  /\ forall name,
       name <> "" ->
       get_creature_image_url (Some name)
       = "https://tibia.fandom.com/wiki/Special:Redirect/file/"
           ++ replace_char " " "_" name ++ ".gif"
       /\ contains_char " " (get_creature_image_url (Some name)) = false
       /\ String.length (get_creature_image_url (Some name))
          = (String.length name + 56)%nat.
Proof.
  split; [reflexivity |]. split; [reflexivity |].
  intros name Hne. unfold get_creature_image_url.
  apply String.eqb_neq in Hne. rewrite Hne.
  split; [reflexivity |]. split.
  - rewrite !contains_char_app, replace_char_removes by reflexivity.
    reflexivity.
  - assert (Happ : forall a b, String.length (a ++ b)
                                = (String.length a + String.length b)%nat).
    { induction a as [| c a IH]; intros b; cbn; auto. }
    assert (Hlen : forall s, String.length (replace_char " " "_" s)
                             = String.length s).
    { induction s as [| c s IH]; cbn; auto. }
    rewrite !Happ, Hlen. cbn. lia.
Qed.

(** X7 on the name "Fire Elemental". *)
Lemma image_url_no_space_witness :
  get_creature_image_url (Some "Fire Elemental")
  = "https://tibia.fandom.com/wiki/Special:Redirect/file/Fire_Elemental.gif".
Proof.
  destruct image_url_no_space as (_ & _ & H).
  destruct (H "Fire Elemental") as (Hurl & _); [discriminate |].
  exact Hurl.
Defined.

(** *** Formatting *)

Lemma remove_commas_list (l : list ascii) :
  remove_commas (string_of_list_ascii l)
  = string_of_list_ascii (filter not_comma l).
Proof.
  induction l as [| c l IH]; cbn; auto. unfold not_comma at 1.
  destruct (c =? ",")%char; cbn; rewrite IH; reflexivity.
Qed.

Lemma count_commas_list (l : list ascii) :
  count_commas (string_of_list_ascii l)
  = List.length (filter (fun c => (c =? ",")%char) l).
Proof.
  induction l as [| c l IH]; cbn; auto.
  destruct (c =? ",")%char; cbn; rewrite IH; reflexivity.
Qed.

Lemma group_from_filter (k : nat) (l : list ascii) :
  forallb not_comma l = true ->
  filter not_comma (group_from k l) = l.
Proof.
  revert k. induction l as [| c l IH]; intros k Hl; cbn; auto.
  cbn in Hl. apply andb_true_iff in Hl. destruct Hl as [Hc Hl].
  destruct (k =? 3)%nat; cbn; rewrite Hc, IH; auto.
Qed.

Lemma group_from_commas (k : nat) (l : list ascii) :
  (k <= 3)%nat ->
  forallb not_comma l = true ->
  List.length (filter (fun c => (c =? ",")%char) (group_from k l))
  = ((List.length l + k - 1) / 3)%nat.
Proof.
  revert k. induction l as [| c l IH]; intros k Hk Hl.
  - cbn [group_from filter List.length]. rewrite Nat.div_small by lia.
    reflexivity.
  - cbn in Hl. apply andb_true_iff in Hl. destruct Hl as [Hc Hl].
    assert (Hc' : (c =? ",")%char = false).
    { unfold not_comma in Hc. destruct (c =? ",")%char; auto; discriminate. }
    cbn [group_from]. destruct (k =? 3)%nat eqn:E.
    + apply Nat.eqb_eq in E. subst k. cbn [filter]. rewrite Hc'.
      change (("," =? ",")%char) with true. cbn [List.length].
      rewrite IH by (auto; lia).
      replace (S (List.length l) + 3 - 1)%nat
        with (List.length l + 1 * 3)%nat by lia.
      replace (List.length l + 1 - 1)%nat with (List.length l) by lia.
      rewrite Nat.div_add by lia. lia.
    + apply Nat.eqb_neq in E. cbn [filter]. rewrite Hc'.
      rewrite IH by (auto; lia). cbn [List.length]. f_equal. lia.
Qed.

Lemma digit_not_comma (c : ascii) : is_digit c = true -> not_comma c = true.
Proof. destruct c as [[] [] [] [] [] [] [] []]; vm_compute; auto. Qed.

Lemma all_digits_not_comma (s : string) :
  all_digits s = true -> forallb not_comma (list_ascii_of_string s) = true.
Proof.
  induction s as [| c s IH]; cbn; auto. intros H.
  apply andb_true_iff in H. destruct H as [Hc Hs].
  rewrite (@digit_not_comma _ Hc), IH; auto.
Qed.

Lemma forallb_rev {X} (f : X -> bool) (l : list X) :
  forallb f (rev l) = forallb f l.
Proof.
  induction l as [| x l IH]; cbn; auto.
  rewrite forallb_app, IH. cbn. rewrite andb_true_r. apply andb_comm.
Qed.

Lemma filter_rev' {X} (f : X -> bool) (l : list X) :
  filter f (rev l) = rev (filter f l).
Proof.
  induction l as [| x l IH]; cbn; auto.
  rewrite filter_app, IH. cbn. destruct (f x); cbn; auto using app_nil_r.
Qed.

Lemma length_list_ascii (s : string) :
  List.length (list_ascii_of_string s) = String.length s.
Proof. induction s as [| c s IH]; cbn; auto. Qed.

(** Grouping a string of digits: the digits stay, the commas are counted. *)
Lemma group_digits_facts (s : string) :
  all_digits s = true ->
  remove_commas (group_digits s) = s
  /\ count_commas (group_digits s) = ((String.length s - 1) / 3)%nat.
Proof.
  intros Hs. unfold group_digits.
  pose proof (@all_digits_not_comma s Hs) as Hl.
  rewrite <- forallb_rev in Hl.
  split.
  - rewrite remove_commas_list, filter_rev', group_from_filter by exact Hl.
    rewrite rev_involutive. apply string_of_list_ascii_of_string.
  - rewrite count_commas_list, filter_rev', length_rev.
    rewrite group_from_commas by (auto; lia).
    rewrite length_rev, length_list_ascii. f_equal. lia.
Qed.

Lemma all_digits_of_uint (d : Decimal.uint) :
  all_digits (NilEmpty.string_of_uint d) = true.
Proof. induction d; cbn; auto. Qed.

(** The text of a number that is not negative. *)
Lemma str_of_Z_nonneg (n : Z) :
  0 <= n ->
  all_digits (str_of_Z n) = true
  /\ isdigit (str_of_Z n) = true
  /\ int_of_digits (str_of_Z n) = Ok n.
Proof.
  intros Hn. unfold str_of_Z, int_of_digits.
  assert (Hd : exists d, Z.to_int n = Decimal.Pos d /\ d <> Decimal.Nil).
  { destruct n as [| p | p]; cbn.
    - eexists; split; [reflexivity | discriminate].
    - exists (Pos.to_uint p). split; [reflexivity |].
      apply DecimalPos.Unsigned.to_uint_nonnil.
    - lia. }
  destruct Hd as (d & Hint & Hnil).
  pose proof (DecimalZ.of_to n) as Hback. rewrite Hint in *. cbn in Hback.
  cbn [NilZero.string_of_int]. rewrite (NilZero.usu d Hnil), Hback.
  assert (Hall : all_digits (NilZero.string_of_uint d) = true).
  { unfold NilZero.string_of_uint. destruct d; auto; apply all_digits_of_uint. }
  split; [exact Hall |]. split; [| reflexivity].
  unfold isdigit. destruct (NilZero.string_of_uint d) eqn:E; auto.
  exfalso. destruct d; cbn in E; discriminate E.
Qed.

Lemma str_of_Z_neg (n : Z) :
  n < 0 -> str_of_Z n = "-" ++ str_of_Z (- n).
Proof.
  destruct n as [| p | p]; try lia. intros _. unfold str_of_Z. cbn.
  unfold NilZero.string_of_uint.
  destruct (Pos.to_uint p); reflexivity.
Qed.

(** The text [f"{n:,}"]: its digits and its commas. *)
Lemma format_thousands_facts (n : Z) :
  remove_commas (format_thousands n) = str_of_Z n
  /\ count_commas (format_thousands n) = ((digits_of n - 1) / 3)%nat.
Proof.
  unfold format_thousands, digits_of.
  destruct (n <? 0) eqn:Hneg.
  - apply Z.ltb_lt in Hneg.
    destruct (@str_of_Z_nonneg (- n)) as (Hall & _); [lia |].
    destruct (@group_digits_facts _ Hall) as (Hremove & Hcount).
    cbn [append remove_commas count_commas].
    change (("-" =? ",")%char) with false. cbn iota.
    rewrite Hremove, Hcount, (@str_of_Z_neg n Hneg).
    replace (Z.abs n) with (- n) by lia. auto.
  - apply Z.ltb_ge in Hneg.
    destruct (@str_of_Z_nonneg n Hneg) as (Hall & _).
    destruct (@group_digits_facts _ Hall) as (Hremove & Hcount).
    rewrite Hremove, Hcount. replace (Z.abs n) with n by lia. auto.
Qed.

Lemma py_int_within (s : string) :
  (String.length s <= max_str_digits)%nat -> py_int s = int_of_digits s.
Proof.
  intros H. unfold py_int.
  destruct (max_str_digits <? String.length s)%nat eqn:E; auto.
  apply Nat.ltb_lt in E. lia.
Qed.

Lemma py_int_beyond (s : string) :
  (max_str_digits < String.length s)%nat ->
  py_int s = Err (int_limit_error (String.length s)).
Proof.
  intros H. unfold py_int. apply Nat.ltb_lt in H. rewrite H. reflexivity.
Qed.

Lemma format_within (n : Z) :
  (digits_of n <= max_str_digits)%nat ->
  py_format_thousands n = Ok (format_thousands n).
Proof.
  intros H. unfold py_format_thousands.
  destruct (max_str_digits <? digits_of n)%nat eqn:E; auto.
  apply Nat.ltb_lt in E. lia.
Qed.

Lemma format_beyond (n : Z) :
  (max_str_digits < digits_of n)%nat ->
  py_format_thousands n = Err str_limit_error.
Proof.
  intros H. unfold py_format_thousands. apply Nat.ltb_lt in H.
  rewrite H. reflexivity.
Qed.

(** X8.  A number of at most 4300 digits is shown with a comma before
    every group of three digits counted from the right: without its commas
    the text of [format_hp] is the text of the number, minus sign included,
    and a number of [d] digits gets [(d - 1) / 3] commas;
    [format_experience] shows it the same.  For a number of more digits
    both raise the [ValueError] of the conversion limit. *)
Theorem format_hp_groups_thousands (py_str : Json -> result string) (n : Z) :
  ((digits_of n <= max_str_digits)%nat ->
   exists text,
     format_hp py_str (JNum n) = Ok text
     /\ format_experience py_str (JNum n) = Ok text
     /\ remove_commas text = str_of_Z n
     /\ count_commas text = ((digits_of n - 1) / 3)%nat)
  /\ ((max_str_digits < digits_of n)%nat ->
      format_hp py_str (JNum n) = Err str_limit_error
      /\ format_experience py_str (JNum n) = Err str_limit_error).
Proof.
  split.
  - intros Hn. exists (format_thousands n). cbn [format_hp format_experience].
    rewrite (@format_within n Hn).
    split; [reflexivity |]. split; [reflexivity |].
    apply format_thousands_facts.
  - intros Hn. cbn [format_hp format_experience].
    rewrite (@format_beyond n Hn). split; reflexivity.
Qed.

(** X8 on 1234567, which gets two commas. *)
Lemma format_hp_groups_thousands_witness :
  exists text,
    format_hp (fun _ => Ok "") (JNum 1234567) = Ok text
    /\ count_commas text = 2%nat.
Proof.
  destruct (proj1 (format_hp_groups_thousands (fun _ => Ok "") 1234567))
    as (text & Htext & _ & _ & Hcount).
  { apply Nat.leb_le. vm_compute. reflexivity. }
  exists text. split; [exact Htext | exact Hcount].
Defined.

Lemma digit_char_parses (c : ascii) (d : Decimal.uint) :
  is_digit c = true -> exists d', uint_of_char c (Some d) = Some d'.
Proof.
  destruct c as [[] [] [] [] [] [] [] []]; vm_compute;
    intros H; try discriminate H; eauto.
Qed.

Lemma all_digits_parse (s : string) :
  all_digits s = true -> exists d, NilEmpty.uint_of_string s = Some d.
Proof.
  induction s as [| c s IH]; cbn; [eauto |]. intros H.
  apply andb_true_iff in H. destruct H as [Hc Hs].
  destruct (IH Hs) as [d Hd]. rewrite Hd. apply digit_char_parses. exact Hc.
Qed.

Lemma isdigit_int_of_digits (s : string) :
  isdigit s = true -> exists n, int_of_digits s = Ok n.
Proof.
  unfold isdigit, int_of_digits, NilZero.uint_of_string.
  destruct s as [| c s]; [discriminate |]. intros H.
  destruct (@all_digits_parse _ H) as [d Hd]. rewrite Hd. eauto.
Qed.

Lemma int_of_digits_leading_zero (s : string) :
  isdigit s = true -> int_of_digits (String "0" s) = int_of_digits s.
Proof.
  unfold isdigit, int_of_digits, NilZero.uint_of_string.
  destruct s as [| c s]; [discriminate |]. intros Hs.
  destruct (@all_digits_parse _ Hs) as [d Hd].
  assert (Hc : NilEmpty.uint_of_string (String "0" (String c s))
               = uint_of_char "0" (NilEmpty.uint_of_string (String c s)))
    by reflexivity.
  rewrite Hc, Hd. reflexivity.
Qed.

Lemma length_string_of_uint (d : Decimal.uint) :
  String.length (NilEmpty.string_of_uint d) = Decimal.nb_digits d.
Proof. induction d; cbn; auto. Qed.

Lemma nb_digits_char (c : ascii) (d d' : Decimal.uint) :
  uint_of_char c (Some d) = Some d' ->
  Decimal.nb_digits d' = S (Decimal.nb_digits d).
Proof.
  destruct c as [[] [] [] [] [] [] [] []]; cbn;
    intros H; try discriminate H; injection H as <-; reflexivity.
Qed.

Lemma nb_digits_parse (s : string) (d : Decimal.uint) :
  NilEmpty.uint_of_string s = Some d ->
  Decimal.nb_digits d = String.length s.
Proof.
  revert d. induction s as [| c s IH]; intros d H.
  - cbn in H. injection H as <-. reflexivity.
  - assert (Hc : NilEmpty.uint_of_string (String c s)
                 = uint_of_char c (NilEmpty.uint_of_string s))
      by reflexivity.
    rewrite Hc in H.
    destruct (NilEmpty.uint_of_string s) as [d0 |].
    + rewrite (@nb_digits_char _ _ _ H), (IH d0 eq_refl). reflexivity.
    + destruct c as [[] [] [] [] [] [] [] []]; discriminate H.
Qed.

(** The text of a number that is not negative has its digits. *)
Lemma length_str_of_Z (n : Z) :
  0 <= n -> String.length (str_of_Z n) = digits_of n.
Proof. intros Hn. unfold digits_of. rewrite Z.abs_eq by exact Hn. auto. Qed.

(** The value of a string of digits has no more digits than the string. *)
Lemma digits_of_value (s : string) (n : Z) :
  isdigit s = true ->
  int_of_digits s = Ok n ->
  0 <= n /\ (digits_of n <= String.length s)%nat.
Proof.
  unfold isdigit, int_of_digits, NilZero.uint_of_string.
  destruct s as [| c s]; [discriminate |]. intros _ H.
  destruct (NilEmpty.uint_of_string (String c s)) as [d |] eqn:Hd;
    [| discriminate H].
  injection H as <-.
  pose proof (@nb_digits_parse _ _ Hd) as Hlen.
  assert (Hpos : 0 <= Z.of_uint d).
  { unfold Z.of_uint. apply N2Z.is_nonneg. }
  split; [exact Hpos |].
  rewrite <- (@length_str_of_Z _ Hpos), <- Hlen.
  unfold str_of_Z.
  change (Z.of_uint d) with (Z.of_int (Decimal.Pos d)).
  rewrite DecimalZ.to_of. cbn [Decimal.norm NilZero.string_of_int].
  assert (Hnil : d <> Decimal.Nil).
  { intros ->. cbn in Hlen. discriminate Hlen. }
  pose proof (DecimalFacts.nb_digits_unorm d Hnil) as Hle.
  unfold NilZero.string_of_uint.
  destruct (Decimal.unorm d) eqn:Hu;
    try (rewrite length_string_of_uint; exact Hle).
  cbn. destruct d; [contradiction | ..]; cbn [Decimal.nb_digits]; lia.
Qed.

(** X9.  A number that arrives as a string of ASCII digits is shown as
    the number: the text of a number of at most 4300 digits that is not
    negative is formatted like the number itself, and zeros in front of
    digits are dropped as long as the string has no more than 4300
    characters.  The text of a negative number is not a string of digits
    and is shown as it is, without commas.  On a string of more than 4300
    digits [int] raises the [ValueError] of the conversion limit. *)
Theorem format_hp_numeric_strings (py_str : Json -> result string) :
  (forall n, 0 <= n ->
             (digits_of n <= max_str_digits)%nat ->
             format_hp py_str (JStr (str_of_Z n)) = format_hp py_str (JNum n))
  /\ (forall s, isdigit s = true ->
                (String.length s < max_str_digits)%nat ->
                format_hp py_str (JStr (String "0" s))
                = format_hp py_str (JStr s))
  /\ (forall n, n < 0 ->
                format_hp py_str (JStr (str_of_Z n)) = Ok (str_of_Z n))
  /\ (forall s, isdigit s = true ->
                (max_str_digits < String.length s)%nat ->
                format_hp py_str (JStr s)
                = Err (int_limit_error (String.length s))).
Proof.
  split; [| split; [| split]].
  - intros n Hn Hlimit.
    destruct (@str_of_Z_nonneg n Hn) as (_ & Hdigit & Hint).
    cbn [format_hp]. rewrite Hdigit, (@py_int_within (str_of_Z n)), Hint; [reflexivity |].
    rewrite (@length_str_of_Z n Hn). exact Hlimit.
  - intros s Hs Hlimit. cbn [format_hp].
    assert (Hs' : isdigit (String "0" s) = true).
    { unfold isdigit in *. destruct s; [discriminate |]. cbn in *. exact Hs. }
    rewrite Hs, Hs'.
    rewrite (@py_int_within (String "0" s)) by (cbn [String.length]; lia).
    rewrite (@py_int_within s) by lia.
    rewrite (@int_of_digits_leading_zero s Hs). reflexivity.
  - intros n Hn. rewrite (@str_of_Z_neg n Hn). reflexivity.
  - intros s Hs Hlimit. cbn [format_hp].
    rewrite Hs, (@py_int_beyond s Hlimit). reflexivity.
Qed.

(** X9 on the numbers 1234 and -1234 and on the string "0012345". *)
Lemma format_hp_numeric_strings_witness :
  format_hp (fun _ => Ok "") (JStr "1234")
  = format_hp (fun _ => Ok "") (JNum 1234)
  /\ format_hp (fun _ => Ok "") (JStr "0012345")
     = format_hp (fun _ => Ok "") (JNum 12345)
  /\ format_hp (fun _ => Ok "") (JStr "-1234") = Ok "-1234".
Proof.
  destruct (format_hp_numeric_strings (fun _ => Ok ""))
    as (Hnum & Hzero & Hneg & _).
  assert (Hsmall : forall n, (n <=? max_str_digits)%nat = true ->
                             (n <= max_str_digits)%nat)
    by (intros n; apply Nat.leb_le).
  split; [| split].
  - apply (Hnum 1234); [lia | apply Hsmall; vm_compute; reflexivity].
  - rewrite (Hzero "012345"), (Hzero "12345")
      by first [reflexivity | apply Nat.ltb_lt; vm_compute; reflexivity].
    apply (Hnum 12345); [lia | apply Hsmall; vm_compute; reflexivity].
  - apply (Hneg (-1234)). lia.
Defined.

(** X10.  [format_hp] and [format_experience] agree on every value.  They
    give "Unknown" for [None], the empty string, the empty list and the
    empty dictionary; a number or a boolean is never shown as "Unknown":
    zero and [False] are shown as "0".  A string of at most 4300 ASCII
    digits is always read as a number and shown with its commas; on a
    longer one both methods raise [ValueError]. *)
Theorem format_hp_unknown (py_str : Json -> result string) (v : Json) :
  format_experience py_str v = format_hp py_str v
  /\ (truthy v = false ->
      format_hp py_str v
      = match v with
        | JNum _ | JBool _ => Ok "0"
        | _ => Ok "Unknown"
        end)
  /\ (forall n, format_hp py_str (JNum n) <> Ok "Unknown")
  /\ (forall b, format_hp py_str (JBool b) <> Ok "Unknown")
  /\ (forall s, isdigit s = true ->
                (String.length s <= max_str_digits)%nat ->
                exists n,
                  0 <= n
                  /\ format_hp py_str (JStr s) = Ok (format_thousands n))
  /\ (forall s, isdigit s = true ->
                (max_str_digits < String.length s)%nat ->
                exists e,
                  format_hp py_str (JStr s) = Err e
                  /\ format_experience py_str (JStr s) = Err e
                  /\ exn_class_of e = ValueError).
Proof.
  assert (Hzero : py_format_thousands 0 = Ok "0") by (vm_compute; reflexivity).
  split; [reflexivity | split; [| split; [| split; [| split]]]].
  - destruct v as [| b | n | s | l | d]; cbn [format_hp truthy]; intros Hv;
      auto.
    + subst b. exact Hzero.
    + apply negb_false_iff, Z.eqb_eq in Hv. subst n. exact Hzero.
    + apply negb_false_iff, String.eqb_eq in Hv. subst s. reflexivity.
    + rewrite Hv. reflexivity.
    + rewrite Hv. reflexivity.
  - intros n H. cbn [format_hp] in H. unfold py_format_thousands in H.
    destruct (max_str_digits <? digits_of n)%nat; [discriminate H |].
    destruct (format_thousands_facts n) as (Hr & _).
    injection H as H. rewrite H in Hr.
    change (remove_commas "Unknown") with "Unknown" in Hr.
    destruct (Z.lt_ge_cases n 0) as [Hneg | Hpos].
    + rewrite (@str_of_Z_neg n Hneg) in Hr. discriminate Hr.
    + destruct (@str_of_Z_nonneg n Hpos) as (Hall & _).
      rewrite <- Hr in Hall. discriminate Hall.
  - intros [|]; vm_compute; discriminate.
  - intros s Hs Hlimit. cbn [format_hp]. rewrite Hs, (@py_int_within s Hlimit).
    destruct (@isdigit_int_of_digits s Hs) as [n Hn]. rewrite Hn.
    destruct (@digits_of_value s n Hs Hn) as (Hpos & Hdigits).
    exists n. split; [exact Hpos |]. cbn [rbind].
    apply format_within. lia.
  - intros s Hs Hlimit. exists (int_limit_error (String.length s)).
    cbn [format_hp format_experience].
    rewrite Hs, (@py_int_beyond s Hlimit). repeat split.
Qed.

(** X10 on the empty string. *)
Lemma format_hp_unknown_witness :
  format_hp (fun _ => Ok "") (JStr "") = Ok "Unknown".
Proof.
  destruct (format_hp_unknown (fun _ => Ok "") (JStr "")) as (_ & H & _).
  apply H. reflexivity.
Defined.

(** *** The HTTP session *)

Lemma nth_set_closed (i j : nat) (l : list bool) :
  nth j (set_closed i l) true = if (j =? i)%nat then true else nth j l true.
Proof.
  revert i j. induction l as [| b l IH]; intros i j.
  - assert (Hnil : nth j [] true = true) by (destruct j; reflexivity).
    replace (set_closed i []) with (@nil bool) by (destruct i; reflexivity).
    rewrite Hnil. destruct (j =? i)%nat; reflexivity.
  - destruct i as [| i], j as [| j]; cbn; auto.
Qed.

Lemma length_set_closed (i : nat) (l : list bool) :
  List.length (set_closed i l) = List.length l.
Proof.
  revert i. induction l as [| b l IH]; intros [| i]; cbn; auto.
Qed.

Lemma nth_new_session (j : nat) (l : list bool) :
  nth j (l ++ [false]) true
  = if (j =? List.length l)%nat then false else nth j l true.
Proof.
  revert j. induction l as [| b l IH]; intros [| j]; cbn; auto.
  destruct j; reflexivity.
Qed.

Lemma nth_closed_beyond (j : nat) (l : list bool) :
  (List.length l <= j)%nat -> nth j l true = true.
Proof. intros H. apply nth_overflow. exact H. Qed.

Lemma session_inv_new (st : Sessions) :
  (forall j, is_closed st j = true) ->
  session_inv (snd (new_session st)).
Proof.
  intros Hall. unfold new_session, session_inv, is_closed in *. cbn.
  split.
  - intros k [= <-]. rewrite length_app. cbn. lia.
  - intros j Hj. rewrite nth_new_session in Hj.
    destruct (j =? List.length (created st))%nat eqn:E.
    + apply Nat.eqb_eq in E. subst j. reflexivity.
    + rewrite Hall in Hj. discriminate Hj.
Qed.

Lemma session_inv_get (st : Sessions) :
  session_inv st -> session_inv (snd (_get_session st)).
Proof.
  intros Hst. pose proof Hst as (Hin & Hopen). unfold _get_session.
  destruct (current st) as [i |] eqn:Hc.
  - destruct (is_closed st i) eqn:Hi; [| exact Hst].
    apply session_inv_new. intros j.
    destruct (is_closed st j) eqn:Hj; auto.
    specialize (Hopen j Hj). injection Hopen as <-. congruence.
  - apply session_inv_new. intros j.
    destruct (is_closed st j) eqn:Hj; auto.
    specialize (Hopen j Hj). discriminate Hopen.
Qed.

Lemma all_closed_count (l : list bool) :
  (forall j, nth j l true = true) -> List.length (filter negb l) = 0%nat.
Proof.
  induction l as [| b l IH]; intros H; cbn; auto.
  pose proof (H 0%nat) as H0. cbn in H0. subst b. cbn.
  apply IH. intros j. apply (H (S j)).
Qed.

Lemma session_inv_close (st : Sessions) :
  session_inv st -> session_inv (close st) /\ open_count (close st) = 0%nat.
Proof.
  intros Hst. pose proof Hst as (Hin & Hopen). unfold close, open_count.
  destruct (current st) as [i |] eqn:Hc.
  - destruct (is_closed st i) eqn:Hi; cbn [negb].
    + split; [exact Hst |]. apply all_closed_count. intros j.
      fold (is_closed st j). destruct (is_closed st j) eqn:Hj; auto.
      specialize (Hopen j Hj). injection Hopen as <-. congruence.
    + assert (Hclosed : forall j, nth j (set_closed i (created st)) true
                                  = true).
      { intros j. rewrite nth_set_closed.
        destruct (j =? i)%nat eqn:E; auto.
        fold (is_closed st j). destruct (is_closed st j) eqn:Hj; auto.
        specialize (Hopen j Hj). injection Hopen as <-.
        rewrite Nat.eqb_refl in E. discriminate E. }
      split; [split |]; cbn.
      * intros k Hk. rewrite length_set_closed. apply Hin. exact Hk.
      * unfold is_closed. cbn. intros j Hj. rewrite Hclosed in Hj.
        discriminate Hj.
      * apply all_closed_count. exact Hclosed.
  - split; [exact Hst |]. apply all_closed_count. intros j.
    fold (is_closed st j). destruct (is_closed st j) eqn:Hj; auto.
    specialize (Hopen j Hj). discriminate Hopen.
Qed.

Lemma session_inv_after (calls : list session_call) (st : Sessions) :
  session_inv st -> session_inv (fold_left session_step calls st).
Proof.
  revert st. induction calls as [| c calls IH]; intros st Hst; cbn; auto.
  apply IH. destruct c; cbn.
  - apply session_inv_get. exact Hst.
  - apply session_inv_close. exact Hst.
Qed.

Lemma session_inv_start : session_inv no_session.
Proof.
  split; cbn; [discriminate |].
  intros j. unfold is_closed. cbn. destruct j; discriminate.
Qed.

Lemma one_open_at_most (l : list bool) (i : nat) :
  (forall j, nth j l true = false -> j = i) ->
  (List.length (filter negb l) <= 1)%nat.
Proof.
  revert i. induction l as [| b l IH]; intros i H; cbn; [lia |].
  destruct b; cbn.
  - apply (IH (pred i)). intros j Hj.
    specialize (H (S j) Hj). subst i. reflexivity.
  - assert (Hi : 0%nat = i) by (apply H; reflexivity). subst i.
    assert (Hnone : List.length (filter negb l) = 0%nat).
    { clear IH. induction l as [| b l IH]; cbn; auto.
      destruct b; cbn.
      - apply IH. intros j Hj. destruct j as [| j]; auto.
        specialize (H (S (S j)) Hj). discriminate H.
      - specialize (H 1%nat eq_refl). discriminate H. }
    lia.
Qed.

(** X11.  Whatever the sequence of [_get_session] and [close] calls on a
    client, at most one of the sessions it has made is open, and an open
    session is the one [self.session] refers to: no session is left open
    behind. *)
Theorem session_single_open (calls : list session_call) :
  let st := after_calls calls in
  (open_count st <= 1)%nat
  /\ (forall j, is_closed st j = false -> current st = Some j).
Proof.
  intros st.
  destruct (session_inv_after calls session_inv_start) as (Hin & Hopen).
  fold (after_calls calls) in Hin, Hopen. fold st in Hin, Hopen.
  split; [| exact Hopen].
  unfold open_count.
  destruct (current st) as [i |] eqn:Hc.
  - apply (@one_open_at_most (created st) i). intros j Hj.
    specialize (Hopen j Hj). congruence.
  - apply (@one_open_at_most (created st) 0%nat). intros j Hj.
    specialize (Hopen j Hj). discriminate Hopen.
Qed.

(** X12.  After any sequence of calls, [_get_session] returns an open
    session and keeps it in [self.session]; a second [_get_session]
    returns the same one and makes nothing new; [close] leaves no session
    open and a second [close] changes nothing; after [close] the next
    [_get_session] makes a new session instead of handing out the closed
    one. *)
Theorem session_reuse_and_close (calls : list session_call) :
  let st := after_calls calls in
  let i := fst (_get_session st) in
  let st1 := snd (_get_session st) in
  is_closed st1 i = false
  /\ current st1 = Some i
  /\ _get_session st1 = (i, st1)
  /\ (List.length (created st1) <= S (List.length (created st)))%nat
  /\ open_count (close st1) = 0%nat
  /\ close (close st1) = close st1
  /\ fst (_get_session (close st1)) = List.length (created st1)
  /\ is_closed (snd (_get_session (close st1)))
               (fst (_get_session (close st1))) = false.
Proof.
  intros st i st1.
  pose proof (session_inv_after calls session_inv_start) as Hst.
  fold (after_calls calls) in Hst. fold st in Hst.
  assert (Hget : forall s, session_inv s ->
            is_closed (snd (_get_session s)) (fst (_get_session s)) = false
            /\ current (snd (_get_session s)) = Some (fst (_get_session s))
            /\ (List.length (created (snd (_get_session s)))
                <= S (List.length (created s)))%nat).
  { intros s (Hin & Hopen). unfold _get_session, new_session, is_closed.
    destruct (current s) as [k |] eqn:Hc.
    - destruct (nth k (created s) true) eqn:Hk; cbn.
      + rewrite nth_new_session, Nat.eqb_refl, length_app. cbn.
        repeat split; auto; lia.
      + repeat split; auto.
    - cbn. rewrite nth_new_session, Nat.eqb_refl, length_app. cbn.
      repeat split; auto; lia. }
  destruct (Hget st Hst) as (Hopen1 & Hcur1 & Hlen1).
  fold i in Hopen1, Hcur1. fold st1 in Hopen1, Hcur1, Hlen1.
  pose proof (session_inv_get Hst) as Hst1. fold st1 in Hst1.
  destruct (session_inv_close Hst1) as (Hclose1 & Hnone).
  assert (Hclosed : is_closed (close st1) i = true
                    /\ current (close st1) = Some i
                    /\ List.length (created (close st1))
                       = List.length (created st1)).
  { unfold close. rewrite Hcur1, Hopen1. cbn. unfold is_closed. cbn.
    rewrite nth_set_closed, Nat.eqb_refl, length_set_closed. auto. }
  destruct Hclosed as (Hci & Hcc & Hcl).
  split; [exact Hopen1 |]. split; [exact Hcur1 |].
  split; [unfold _get_session; rewrite Hcur1, Hopen1; reflexivity |].
  split; [exact Hlen1 |]. split; [exact Hnone |].
  split; [unfold close at 1; rewrite Hcc, Hci; reflexivity |].
  assert (Hfresh : _get_session (close st1) = new_session (close st1)).
  { unfold _get_session. rewrite Hcc, Hci. reflexivity. }
  rewrite Hfresh. unfold new_session. cbn. split; [exact Hcl |].
  unfold is_closed. cbn. rewrite nth_new_session, Nat.eqb_refl. reflexivity.
Qed.

End TibiaAPIFacts.

(** ** The update controller *)

Module TibiaBotFacts.
Import Py Coroutine CoroutineFacts TibiaBot.
Local Open Scope prog_scope.
Local Arguments String.append : simpl never.
Local Arguments str_of_Z : simpl never.
Local Arguments should_post : simpl never.



(** One step of the symbolic run of a call: split on the next answer of the
    environment or on the next test of the code. *)
Ltac split_next :=
  match goal with
  | H : api_get_boosted_creatures ?env ?tr = _
    |- context [api_get_boosted_creatures ?env ?tr] => rewrite H
  | |- context [api_get_boosted_creatures ?env ?tr] =>
      destruct (api_get_boosted_creatures env tr) eqn:?
  | |- context [match boosted_creature ?d with _ => _ end] =>
      destruct (boosted_creature d) eqn:?
  | |- context [match boosted_boss ?d with _ => _ end] =>
      destruct (boosted_boss d) eqn:?
  | |- context [if should_post ?f ?n ?l then _ else _] =>
      destruct (should_post f n l) eqn:?
  | |- context [if ?a =? 0 then _ else _] =>
      destruct (a =? 0) eqn:?
  | |- context [api_get_creature_details ?env ?tr ?s ?n] =>
      generalize (api_get_creature_details env tr s n); intro
  | |- context [match get_channel ?env ?tr ?s ?i with _ => _ end] =>
      destruct (get_channel env tr s i)
  | |- context [create_embed ?env ?tr ?s ?n ?d ?b] =>
      destruct (create_embed env tr s n d b)
  | |- context [channel_send ?env ?tr ?s ?c ?e] =>
      destruct (channel_send env tr s c e) as [[] |]
  | |- context [if is_Forbidden ?e then _ else _] =>
      destruct (is_Forbidden e) eqn:?
  | |- context [if is_HTTPException ?e then _ else _] =>
      destruct (is_HTTPException e) eqn:?
  end.

Ltac run_call :=
  unfold call, post_boosted_updates, slot_update, _post_update, append_error;
  cbn;
  repeat (split_next; cbn).

Lemma Forbidden_is_HTTPException (e : exn) :
  is_Forbidden e = true -> is_HTTPException e = true.
Proof.
  unfold is_Forbidden, is_HTTPException.
  destruct (exn_class_of e); auto.
Qed.

(** Close a run: name the result and the state, and give the events the
    call added. *)
Ltac close_run :=
  eexists; eexists; eexists;
  split; [reflexivity |];
  split; [cbn; rewrite <- ?app_assoc; reflexivity |];
  cbn.

(** Use what the run found out about the class of an exception. *)
Ltac know_class :=
  repeat match goal with
         | H : is_Forbidden ?e = true |- _ =>
             apply Forbidden_is_HTTPException in H
         end;
  repeat match goal with
         | H : is_HTTPException ?e = _ |- _ => rewrite H in *; clear H
         end.

(** Find the event of the hypothesis [H : In ev l] in the list of a run. *)
Ltac pick_event H :=
  cbn [In] in H;
  repeat (destruct H as [H | H]; [try discriminate H |]);
  try contradiction.

(** C1 (amended).  When [channel.send] of a slot raises
    [discord.Forbidden] or another [discord.HTTPException], the post helper
    logs it and returns, and the call goes on as after a send that went
    through: the posted flag of the slot is true and its last-posted value
    is the observed one; no message is appended for it (the list of errors
    is empty unless the other slot raised).  When [channel.send] raises
    anything else, the exception leaves the helper: the last-posted value of
    the slot is unchanged, its flag is false and the one message of
    [errors] is that of the exception.  The last-posted value of a slot
    changes only in a call in which no exception left the helper of the
    slot and which sets the flag of the slot. *)
Theorem send_failure_outcome (env : Env) (force_update : bool) (bot : Bot)
    (tr : list Event) :
  exists r st' new,
    call env force_update bot tr = (Returned r, st')
    /\ st_trace st' = (tr ++ new)%list
    /\ (forall s channel embed e,
          In (EvSend s channel embed (Err e)) new ->
          if is_HTTPException e then
            posted s r = true
            /\ (exists boosted_data,
                  api_get_boosted_creatures env tr = Some boosted_data
                  /\ last_posted s (st_self st') = observed s boosted_data)
            /\ (errors r = [] \/ (s = Creature /\ post_raised Boss new = true))
          else
            posted s r = false
            /\ last_posted s (st_self st') = last_posted s bot
            /\ errors r = ["Error posting boosted updates: " ++ exn_str e])
    /\ (forall s,
          last_posted s (st_self st') <> last_posted s bot ->
          posted s r = true /\ post_raised s new = false).
Proof.
  run_call.
  all: close_run.
  all: split;
    [ intros sl ch em ex Hin; pick_event Hin;
      injection Hin as <- <- <- <-; know_class; cbn;
      repeat split; try (eexists; split; [reflexivity |]);
      auto; try congruence
    | intros [|]; cbn; intros Hne; try (exfalso; apply Hne; reflexivity);
      know_class; cbn; auto ].
Qed.

(** The statement of C1 at the bot that posted "Bear" last, with a creature
    channel that refuses the send: the flag is true and "Wolf" is recorded. *)
Lemma send_failure_outcome_witness :
  exists r st',
    call env_forbidden false bot_bear [] = (Returned r, st')
    /\ posted Creature r = true
    /\ last_posted Creature (st_self st') = Some "Wolf".
Proof.
  destruct (send_failure_outcome env_forbidden false bot_bear [])
    as (r & st' & new & Hcall & Htr & Hsend & _).
  exists r, st'. split; [exact Hcall |].
  vm_compute in Hcall. injection Hcall as <- <-.
  cbn in Htr. subst new.
  destruct (Hsend Creature (channel_of Creature 111) (embed_of "Wolf")
              missing_permissions) as (Hposted & (d & Hd & Hlast) & _).
  { vm_compute. auto 10. }
  split; [exact Hposted |]. reflexivity.
Defined.

(** C1, as the specification words it, fails: the creature send is refused
    with [discord.Forbidden], and the call records "Wolf" as posted. *)
Lemma send_failure_counterexample :
  ~ spec_send_failure env_forbidden false bot_bear [] Creature.
Proof.
  unfold spec_send_failure. intros H. vm_compute in H.
  specialize (H _ _ (channel_of Creature 111) (embed_of "Wolf")
                missing_permissions eq_refl).
  destruct H as (Hlast & _).
  { vm_compute. auto 10. }
  discriminate Hlast.
Qed.

Lemma should_post_iff (force_update : bool) (name last : option string) :
  should_post force_update name last = true <->
  exists n, name = Some n /\ n <> ""
            /\ (force_update = true \/ last <> Some n).
Proof.
  unfold should_post, py_ne. split.
  - destruct name as [n |]; [| discriminate].
    intros H. apply andb_true_iff in H. destruct H as [Hn Hf].
    exists n. split; [reflexivity |]. split.
    + intros ->. discriminate Hn.
    + destruct force_update; [left; reflexivity | right].
      cbn in Hf. destruct last as [l |]; [| discriminate].
      intros [= ->]. rewrite String.eqb_refl in Hf. discriminate Hf.
  - intros (n & -> & Hn & Hf).
    apply String.eqb_neq in Hn. rewrite Hn. cbn.
    destruct Hf as [-> | Hl]; [reflexivity |].
    destruct force_update; [reflexivity |]. cbn.
    destruct last as [l |]; [| reflexivity].
    destruct (n =? l)%string eqn:E; [| reflexivity].
    apply String.eqb_eq in E. subst l. exfalso. apply Hl. reflexivity.
Qed.

(** Bring the tests of the run back into the goal. *)
Ltac recall_tests :=
  repeat match goal with
         | H : boosted_creature _ = _ |- _ => rewrite H in *; clear H
         | H : boosted_boss _ = _ |- _ => rewrite H in *; clear H
         end;
  repeat match goal with
         | H : should_post _ _ _ = _ |- _ => rewrite H in *; clear H
         end;
  know_class.

(** C2 (amended).  In a call that obtains a summary, the post of the
    creature slot is attempted iff the observed creature is present (a
    string that is not empty) and either force is requested or it differs
    from the stored last-posted value, where a stored [None] differs from
    every string; the post of the boss slot is attempted under the same
    condition on the boss, unless an exception left the creature post,
    which ends the call.  Force alone fires nothing for a slot whose value
    is absent; with force, every slot with a present value is attempted
    whatever was posted last. *)
Theorem post_attempted_iff :
  (forall (env : Env) (force_update : bool) (bot : Bot) (tr : list Event)
          (boosted_data : BoostedData),
     api_get_boosted_creatures env tr = Some boosted_data ->
     exists r st' new,
       call env force_update bot tr = (Returned r, st')
       /\ st_trace st' = (tr ++ new)%list
       /\ post_attempted Creature new
          = should_post force_update (observed Creature boosted_data)
                        (last_posted Creature bot)
       /\ post_attempted Boss new
          = negb (post_raised Creature new)
            && should_post force_update (observed Boss boosted_data)
                           (last_posted Boss bot))
  /\ (forall force_update name last,
        should_post force_update name last = true <->
        exists n, name = Some n /\ n <> ""
                  /\ (force_update = true \/ last <> Some n))
  /\ (forall last, should_post true None last = false)
  /\ (forall n last, n <> "" -> should_post true (Some n) last = true).
Proof.
  split; [| split; [| split]].
  - intros env force_update bot tr boosted_data Hdata.
    run_call.
    all: close_run.
    all: recall_tests.
    all: try (unfold should_post).
    all: vm_compute; auto.
  - apply should_post_iff.
  - reflexivity.
  - intros n last Hn. apply should_post_iff. exists n. auto.
Qed.

(** The first clause of C2 with force, a boss and no creature: the boss
    post is attempted, the creature post is not. *)
Lemma post_attempted_iff_witness :
  exists r st',
    call env_boss_only true bot_bear [] = (Returned r, st')
    /\ post_attempted Creature (st_trace st') = false
    /\ post_attempted Boss (st_trace st') = true.
Proof.
  destruct (proj1 post_attempted_iff env_boss_only true bot_bear []
              (summary None (Some "Yeti")) eq_refl)
    as (r & st' & new & Hcall & Htr & Hc & Hb).
  exists r, st'. split; [exact Hcall |].
  rewrite Htr. cbn [app]. rewrite Hc.
  vm_compute in Hcall. injection Hcall as <- <-.
  cbn in Htr. subst new. split; reflexivity.
Defined.

(** C2, as the specification words it, fails: force is requested, no
    creature is observed, and nothing is attempted for the creature slot. *)
Lemma force_without_value_counterexample :
  ~ spec_fires env_boss_only true bot_bear [] Creature.
Proof.
  unfold spec_fires. intros H. vm_compute in H.
  specialize (H _ _ _ eq_refl eq_refl). discriminate H.
Qed.











(** C8.  When [get_boosted_creatures] gives [None], the call returns the
    result with both flags false and the one message "Failed to fetch
    boosted data"; nothing else is called (no detail fetch, no send: the
    fetch is the only event the call adds) and [self] is as before. *)
Theorem fetch_failure_no_work (env : Env) (force_update : bool) (bot : Bot)
    (tr : list Event) :
  api_get_boosted_creatures env tr = None ->
  call env force_update bot tr =
  (Returned {| creature_posted := false;
               boss_posted := false;
               errors := ["Failed to fetch boosted data"] |},
   {| st_self := bot;
      st_result := {| creature_posted := false;
                      boss_posted := false;
                      errors := ["Failed to fetch boosted data"] |};
      st_trace := (tr ++ [EvGetBoosted None])%list |}).
Proof.
  intros Hnone. unfold call, post_boosted_updates, append_error.
  cbn. rewrite Hnone. reflexivity.
Qed.

(** The statement of C8 on an environment whose fetch fails. *)
Lemma fetch_failure_no_work_witness :
  call (env_sending None always_sent) true bot_bear [] =
  (Returned {| creature_posted := false;
               boss_posted := false;
               errors := ["Failed to fetch boosted data"] |},
   {| st_self := bot_bear;
      st_result := {| creature_posted := false;
                      boss_posted := false;
                      errors := ["Failed to fetch boosted data"] |};
      st_trace := [EvGetBoosted None] |}).
Proof.
  apply (@fetch_failure_no_work (env_sending None always_sent) true
           bot_bear []).
  reflexivity.
Defined.

(** *** Turns of the event loop *)

Lemma settle_run {X} (env : Env) (p : Prog MainE X) (st : State) :
  run (handle env) (fst (settle env p st)) (snd (settle env p st))
  = run (handle env) p st.
Proof.
  revert st. induction p as [a | e | Y eff k IH]; intros st; cbn; auto.
  destruct (suspends eff); cbn; auto.
  destruct (handle env eff st) as [x st']. apply IH.
Qed.

Lemma resume_run {X} (env : Env) (p : Prog MainE X) (st : State) :
  run (handle env) (fst (resume env p st)) (snd (resume env p st))
  = run (handle env) p st.
Proof.
  destruct p as [a | e | Y eff k]; cbn; auto.
  destruct (handle env eff st) as [x st']. apply settle_run.
Qed.

Lemma turns_run {X} (env : Env) (n : nat) (p : Prog MainE X) (st : State) :
  run (handle env) (fst (turns env n p st)) (snd (turns env n p st))
  = run (handle env) p st.
Proof.
  revert p st. induction n as [| n IH]; intros p st; cbn; auto.
  pose proof (resume_run env p st) as H.
  destruct (resume env p st) as [p' st']. cbn in H.
  rewrite IH. exact H.
Qed.

(** Six turns finish a call: it has at most five suspensions. *)
Lemma six_turns_finish (env : Env) (force_update : bool) (st : State) :
  exists r, fst (turns env 6 (post_boosted_updates force_update) st) = Ret r.
Proof.
  unfold post_boosted_updates, slot_update, _post_update, append_error.
  cbn.
  repeat (split_next; cbn).
  all: eexists; reflexivity.
Qed.

Lemma six_turns_call (env : Env) (force_update : bool) (bot : Bot)
    (tr : list Event) :
  exists r st',
    turns env 6 (post_boosted_updates force_update)
          {| st_self := bot; st_result := empty_result; st_trace := tr |}
    = (Ret r, st')
    /\ call env force_update bot tr = (Returned r, st').
Proof.
  set (st := {| st_self := bot; st_result := empty_result; st_trace := tr |}).
  destruct (six_turns_finish env force_update st) as [r Hr].
  pose proof (turns_run env 6 (post_boosted_updates force_update) st) as Hrun.
  destruct (turns env 6 (post_boosted_updates force_update) st)
    as [p' st'] eqn:Hturns.
  cbn [fst snd] in *. subst p'.
  exists r, st'. split; [reflexivity |].
  unfold call. fold empty_result. fold st. rewrite <- Hrun. reflexivity.
Qed.


(** Turns given to the first call only are turns of that call alone. *)
Lemma run_loop_first (env : Env) (n : nat) (l : Loop) :
  run_loop env (repeat First n) l =
  let (p, st) := turns env n (fst (task_a l))
                       {| st_self := loop_self l;
                          st_result := snd (task_a l);
                          st_trace := loop_trace l |} in
  {| loop_self := st_self st;
     loop_trace := st_trace st;
     task_a := (p, st_result st);
     task_b := task_b l |}.
Proof.
  revert l. induction n as [| n IH]; intros l; cbn [repeat run_loop turns].
  - destruct l as [b tr [pa ra] tb]. reflexivity.
  - rewrite IH. unfold give_turn.
    destruct (resume env (fst (task_a l)) _) as [p st]. cbn.
    destruct st as [b r tr]. reflexivity.
Qed.





(** C10 (amended).  After a call that ran without another call between
    its awaits, a posted flag that is true comes with the last-posted
    attribute of its slot equal to the name observed in this call,
    whatever the channel lookups, the builder and the sends did.  In the
    event loop this is a call that gets its six turns in a row: it returns
    the same result on the same state.  The coupling is lost when another
    call runs between the awaits. *)
Theorem posted_flag_implies_last_posted (env : Env) (force_update : bool)
    (bot : Bot) (tr : list Event) :
  exists r st',
    call env force_update bot tr = (Returned r, st')
    /\ (forall s,
          posted s r = true ->
          exists boosted_data name,
            api_get_boosted_creatures env tr = Some boosted_data
            /\ observed s boosted_data = Some name
            /\ last_posted s (st_self st') = Some name)
    /\ (forall force_b,
          let l := run_loop env (repeat First 6)
                            (spawn force_update force_b bot tr) in
          returned (task_a l) = Some r
          /\ loop_self l = st_self st'
          /\ loop_trace l = st_trace st').
Proof.
  assert (Halone : exists r st',
            call env force_update bot tr = (Returned r, st')
            /\ forall s,
                 posted s r = true ->
                 exists boosted_data name,
                   api_get_boosted_creatures env tr = Some boosted_data
                   /\ observed s boosted_data = Some name
                   /\ last_posted s (st_self st') = Some name).
  { run_call.
    all: eexists; eexists; (split; [reflexivity |]).
    all: intros [|]; cbn; intros Hp; try discriminate Hp.
    all: eexists; eexists; (split; [reflexivity |]); split; eauto. }
  destruct Halone as (r & st' & Hcall & Hflag).
  exists r, st'. split; [exact Hcall |]. split; [exact Hflag |].
  intros force_b l.
  destruct (six_turns_call env force_update bot tr)
    as (r' & st'' & Hturns & Hcall').
  rewrite Hcall in Hcall'. injection Hcall' as <- <-.
  subst l. rewrite run_loop_first.
  cbn [spawn fst snd task_a task_b loop_self loop_trace].
  rewrite Hturns. cbn. auto.
Qed.

(** The statement of C10 on a creature send that is refused: the flag is
    true and "Wolf" is recorded. *)
Lemma posted_flag_implies_last_posted_witness :
  exists r st',
    call env_forbidden false bot_bear [] = (Returned r, st')
    /\ posted Creature r = true
    /\ last_posted Creature (st_self st') = Some "Wolf".
Proof.
  destruct (posted_flag_implies_last_posted env_forbidden false bot_bear [])
    as (r & st' & Hcall & Hflag & _).
  exists r, st'. split; [exact Hcall |].
  assert (Hp : posted Creature r = true).
  { vm_compute in Hcall. injection Hcall as <- <-. reflexivity. }
  split; [exact Hp |].
  destruct (Hflag Creature Hp) as (d & name & Hd & Hobs & Hlast).
  vm_compute in Hd. injection Hd as <-.
  vm_compute in Hobs. injection Hobs as <-. exact Hlast.
Defined.

(** C10, as the claim words it ("after every call"), fails for calls that
    overlap: the boosted creature changes from "Wolf" to "Fox" between the
    fetches of two calls that take turns.  The first call observed "Wolf"
    and returns with its creature flag true, after the second has written
    "Fox" to [last_posted_creature] while the first waited for its boss
    post. *)
Lemma overlapping_flag_counterexample :
  ~ spec_flag_means_recorded env_wolf_then_fox false false bot_bear
      until_first_returns.
Proof.
  unfold spec_flag_means_recorded. intros H. vm_compute in H.
  specialize (H _ _ eq_refl eq_refl Creature eq_refl).
  discriminate H.
Qed.

(** *** What a call does besides *)

(** Find an event in the list of a run. *)
Ltac find_event :=
  cbn [In]; repeat first [left; reflexivity | right]; fail.

(** X13.  [post_boosted_updates] always returns its result (no exception
    leaves it), with at most one message in [errors].  The list is empty
    exactly when the summary was fetched and no exception left a post
    helper; a message is either "Failed to fetch boosted data" or the
    message of the exception that ended the call, which is also logged as
    an error. *)
Theorem call_errors (env : Env) (force_update : bool) (bot : Bot)
    (tr : list Event) :
  exists r st' new,
    call env force_update bot tr = (Returned r, st')
    /\ st_trace st' = (tr ++ new)%list
    /\ (List.length (errors r) <= 1)%nat
    /\ (errors r = [] <->
        api_get_boosted_creatures env tr <> None
        /\ post_raised Creature new = false
        /\ post_raised Boss new = false)
    /\ (forall msg,
          In msg (errors r) ->
          (msg = "Failed to fetch boosted data"
           /\ api_get_boosted_creatures env tr = None)
          \/ (exists e,
                msg = "Error posting boosted updates: " ++ exn_str e
                /\ In (EvLog ERROR msg) new
                /\ (post_raised Creature new || post_raised Boss new = true))).
Proof.
  run_call.
  all: close_run.
  all: know_class; cbn.
  all: split; [lia |].
  all: split;
    [ split;
      [ intros Hnil; try discriminate Hnil;
        repeat split; try reflexivity; discriminate
      | intros (Hdata & Hc & Hb); try reflexivity;
        try discriminate Hc; try discriminate Hb;
        exfalso; apply Hdata; reflexivity ]
    | intros msg Hin; pick_event Hin; subst msg;
      first [ left; split; reflexivity
            | right; eexists; split; [reflexivity |];
              split; [find_event | reflexivity] ] ].
Qed.

(** The statement of X13 on a creature send that dies of a connection
    error: one message, and the list is not empty. *)
Lemma call_errors_witness :
  exists r st',
    call env_connection_reset false bot_bear [] = (Returned r, st')
    /\ (List.length (errors r) <= 1)%nat
    /\ errors r <> [].
Proof.
  destruct (call_errors env_connection_reset false bot_bear [])
    as (r & st' & new & Hcall & Htr & Hlen & Hiff & _).
  exists r, st'. split; [exact Hcall |]. split; [exact Hlen |].
  intros Hnil. apply Hiff in Hnil. destruct Hnil as (_ & Hc & _).
  vm_compute in Hcall. injection Hcall as <- <-.
  cbn in Htr. subst new. discriminate Hc.
Defined.

(** X14.  Within one call, each slot has at most one detail fetch and at
    most one send.  A send of a slot goes to the channel that
    [self.get_channel] gave for the configured (non-zero) id of the slot,
    with the embed the builder made from the name observed for the slot,
    the details just fetched for that name and the summary of this call.
    Details are fetched only for the observed name of a slot whose
    condition holds and whose channel was found. *)
Theorem send_uses_fetched_details (env : Env) (force_update : bool)
    (bot : Bot) (tr : list Event) :
  exists r st' new,
    call env force_update bot tr = (Returned r, st')
    /\ st_trace st' = (tr ++ new)%list
    /\ forall s,
         (List.length (sends s new) <= 1)%nat
         /\ (List.length (detail_fetches s new) <= 1)%nat
         /\ (forall channel embed answer,
               In (EvSend s channel embed answer) new ->
               exists boosted_data name details,
                 api_get_boosted_creatures env tr = Some boosted_data
                 /\ observed s boosted_data = Some name
                 /\ channel_id_of s bot <> 0
                 /\ In (EvEmbed s name details boosted_data (Ok embed)) new
                 /\ In (EvGetDetails s name details) new
                 /\ In (EvGetChannel s (channel_id_of s bot) (Some channel))
                       new)
         /\ (forall name details,
               In (EvGetDetails s name details) new ->
               exists boosted_data channel,
                 api_get_boosted_creatures env tr = Some boosted_data
                 /\ observed s boosted_data = Some name
                 /\ should_post force_update (Some name) (last_posted s bot)
                    = true
                 /\ In (EvGetChannel s (channel_id_of s bot) (Some channel))
                       new).
Proof.
  run_call.
  all: close_run.
  all: intros [|]; cbn.
  all: split; [lia |]; split; [lia |]; split;
    [ intros ch em ans Hin; pick_event Hin;
      (injection Hin as <- <- <-;
       eexists; eexists; eexists; repeat split;
       first [ reflexivity | eassumption
             | apply Z.eqb_neq; assumption | find_event ])
    | intros nm det Hin; pick_event Hin;
      (injection Hin as <- <-;
       eexists; eexists; repeat split;
       first [ reflexivity | eassumption | find_event ]) ].
Qed.

(** The statement of X14 on the bot that posted "Bear" last when "Wolf"
    is boosted: the send of the creature slot is for the observed name and
    the configured channel. *)
Lemma send_uses_fetched_details_witness :
  exists r st' name,
    call env_wolf false bot_bear [] = (Returned r, st')
    /\ observed Creature (summary (Some "Wolf") None) = Some name
    /\ channel_id_of Creature bot_bear <> 0
    /\ In (EvGetDetails Creature name JNull) (st_trace st').
Proof.
  destruct (send_uses_fetched_details env_wolf false bot_bear [])
    as (r & st' & new & Hcall & Htr & Hslot).
  assert (Hcall' := Hcall).
  vm_compute in Hcall'. injection Hcall' as <- <-.
  cbn in Htr. subst new.
  destruct (Hslot Creature) as (_ & _ & Hsend & _).
  destruct (Hsend (channel_of Creature 111) (embed_of "Wolf") (Ok tt))
    as (d & name & details & Hd & Hobs & Hid & Hembed & Hdetails & _).
  { vm_compute. auto 10. }
  vm_compute in Hd. injection Hd as <-.
  assert (Hnull : details = JNull).
  { cbn [In] in Hembed.
    repeat (destruct Hembed as [Hembed | Hembed];
            [try discriminate Hembed |]); [| contradiction].
    injection Hembed as _ <-. reflexivity. }
  subst details.
  eexists; eexists; exists name.
  split; [exact Hcall |]. split; [exact Hobs |]. split; [exact Hid |].
  exact Hdetails.
Defined.

(** X15.  A slot whose channel id is not configured (it is 0) or whose
    channel [self.get_channel] does not find gets no detail fetch, no embed
    and no send; yet when its post was attempted, the call sets the posted
    flag of the slot and records the observed name as posted, so later
    calls without force skip it. *)
Theorem missing_channel_recorded (env : Env) (force_update : bool)
    (bot : Bot) (tr : list Event) (boosted_data : BoostedData) :
  api_get_boosted_creatures env tr = Some boosted_data ->
  exists r st' new,
    call env force_update bot tr = (Returned r, st')
    /\ st_trace st' = (tr ++ new)%list
    /\ forall s,
         channel_id_of s bot = 0
         \/ In (EvGetChannel s (channel_id_of s bot) None) new ->
         sends s new = []
         /\ detail_fetches s new = []
         /\ (forall name details d answer,
               ~ In (EvEmbed s name details d answer) new)
         /\ (post_attempted s new = true ->
             posted s r = true
             /\ last_posted s (st_self st') = observed s boosted_data).
Proof.
  intros Hdata. run_call.
  all: close_run.
  all: intros [|]; cbn.
  all: intros [Hzero | Hin];
       try (apply Z.eqb_neq in Hzero; contradiction);
       try (match goal with
            | H : (_ =? 0) = false |- _ =>
                apply Z.eqb_neq in H; contradiction
            end);
       try (pick_event Hin; fail).
  all: recall_tests.
  all: split; [reflexivity |]; split; [reflexivity |]; split;
       [ intros nm det d0 ans Hev; pick_event Hev |].
  all: intros Hatt; try discriminate Hatt.
  all: split; reflexivity.
Qed.

(** The statement of X15 on a bot without a creature channel when "Wolf"
    is boosted: nothing is sent, and "Wolf" is recorded as posted. *)
Lemma missing_channel_recorded_witness :
  exists r st',
    call env_wolf false (__init__ 0 222) [] = (Returned r, st')
    /\ sends Creature (st_trace st') = []
    /\ posted Creature r = true
    /\ last_posted Creature (st_self st') = Some "Wolf".
Proof.
  destruct (@missing_channel_recorded env_wolf false (__init__ 0 222) []
              (summary (Some "Wolf") None) eq_refl)
    as (r & st' & new & Hcall & Htr & Hslot).
  exists r, st'. split; [exact Hcall |].
  destruct (Hslot Creature (or_introl eq_refl)) as (Hs & _ & _ & Hrec).
  rewrite Htr. cbn [app]. split; [exact Hs |].
  apply Hrec. vm_compute in Hcall. injection Hcall as <- <-.
  cbn in Htr. subst new. reflexivity.
Defined.

(** X16.  A call never changes the two channel ids of [self].  A slot whose
    condition is false (no name observed, an empty name, or without force
    the name posted last) is left alone: no channel lookup, detail fetch,
    builder call or send is made for it, its flag is false and its
    last-posted value is as before, whatever happens to the other slot. *)
Theorem skipped_slot_untouched (env : Env) (force_update : bool) (bot : Bot)
    (tr : list Event) (boosted_data : BoostedData) :
  api_get_boosted_creatures env tr = Some boosted_data ->
  exists r st' new,
    call env force_update bot tr = (Returned r, st')
    /\ st_trace st' = (tr ++ new)%list
    /\ creature_channel_id (st_self st') = creature_channel_id bot
    /\ boss_channel_id (st_self st') = boss_channel_id bot
    /\ forall s,
         should_post force_update (observed s boosted_data)
                     (last_posted s bot) = false ->
         filter (of_slot s) new = []
         /\ post_attempted s new = false
         /\ posted s r = false
         /\ last_posted s (st_self st') = last_posted s bot.
Proof.
  intros Hdata. run_call.
  all: close_run.
  all: split; [reflexivity |]; split; [reflexivity |].
  all: intros [|]; cbn; intros Hno; recall_tests; try congruence.
  all: vm_compute; auto.
Qed.

(** The statement of X16 on the bot that posted "Bear" last when "Bear" is
    still boosted and a boss appeared: the creature slot is left alone. *)
Lemma skipped_slot_untouched_witness :
  exists r st',
    call (env_sending (Some (summary (Some "Bear") (Some "Yeti"))) always_sent)
         false bot_bear [] = (Returned r, st')
    /\ filter (of_slot Creature) (st_trace st') = []
    /\ posted Creature r = false
    /\ last_posted Creature (st_self st') = Some "Bear".
Proof.
  destruct (@skipped_slot_untouched
              (env_sending (Some (summary (Some "Bear") (Some "Yeti")))
                           always_sent)
              false bot_bear [] (summary (Some "Bear") (Some "Yeti")) eq_refl)
    as (r & st' & new & Hcall & Htr & _ & _ & Hslot).
  exists r, st'. split; [exact Hcall |].
  destruct (Hslot Creature eq_refl) as (Hnone & _ & Hflag & Hlast).
  rewrite Htr. cbn [app]. auto.
Defined.

Lemma should_post_fresh (f : bool) (n : string) :
  n <> "" -> should_post f (Some n) None = true.
Proof.
  intros Hn. apply should_post_iff. exists n.
  repeat split; auto. right. discriminate.
Qed.

(** X17.  A bot as [__init__] leaves it has posted nothing: on its first
    call, with or without force, the post of every slot with a non-empty
    observed name is attempted (for the boss, unless an exception left the
    creature post), and the slot is flagged and recorded as posted unless an
    exception left its post helper.  So a restarted bot posts the current
    creature and boss again. *)
Theorem first_call_after_init (env : Env) (force_update : bool)
    (creature_id boss_id : Z) (tr : list Event)
    (boosted_data : BoostedData) :
  api_get_boosted_creatures env tr = Some boosted_data ->
  exists r st' new,
    call env force_update (__init__ creature_id boss_id) tr
    = (Returned r, st')
    /\ st_trace st' = (tr ++ new)%list
    /\ forall s name,
         observed s boosted_data = Some name ->
         name <> "" ->
         (s = Boss -> post_raised Creature new = false) ->
         post_attempted s new = true
         /\ posted s r = negb (post_raised s new)
         /\ last_posted s (st_self st')
            = if post_raised s new then None else Some name.
Proof.
  intros Hdata. run_call.
  all: close_run.
  all: intros [|] name Hobs Hname Hcreature; cbn in Hobs.
  all: try congruence.
  all: pose proof (should_post_fresh force_update Hname) as Hfresh.
  all: repeat match goal with
              | H : boosted_creature _ = _ |- _ => rewrite H in *; clear H
              | H : boosted_boss _ = _ |- _ => rewrite H in *; clear H
              end.
  all: match goal with
       | H : Some _ = Some _ |- _ => injection H as Hsame; subst
       end.
  all: try congruence.
  all: know_class; cbn.
  all: try (specialize (Hcreature eq_refl); discriminate Hcreature).
  all: vm_compute; auto.
Qed.

(** The statement of X17 on a bot just made when "Wolf" is boosted: the
    creature post is attempted without force, and "Wolf" is recorded. *)
Lemma first_call_after_init_witness :
  exists r st',
    call env_wolf false (__init__ 111 222) [] = (Returned r, st')
    /\ post_attempted Creature (st_trace st') = true
    /\ last_posted Creature (st_self st') = Some "Wolf".
Proof.
  destruct (@first_call_after_init env_wolf false 111 222 []
              (summary (Some "Wolf") None) eq_refl)
    as (r & st' & new & Hcall & Htr & Hslot).
  exists r, st'. split; [exact Hcall |].
  destruct (Hslot Creature "Wolf" eq_refl) as (Hatt & Hflag & Hlast).
  { discriminate. }
  { discriminate. }
  rewrite Htr. cbn [app]. split; [exact Hatt |].
  rewrite Hlast. vm_compute in Hcall. injection Hcall as <- <-.
  cbn in Htr. subst new. reflexivity.
Defined.

(** *** The slash commands *)

Lemma should_post_forced (n : string) (last : option string) :
  n <> "" -> should_post true (Some n) last = true.
Proof.
  intros Hn. apply should_post_iff. exists n. auto.
Qed.

(** A call with force returns, with at most one error message, and
    attempts the post of every slot with a non-empty observed name. *)
Lemma call_forced (env : Env) (bot : Bot) (tr : list Event) :
  exists r st' new,
    call env true bot tr = (Returned r, st')
    /\ st_trace st' = (tr ++ new)%list
    /\ (List.length (errors r) <= 1)%nat
    /\ forall boosted_data s name,
         api_get_boosted_creatures env tr = Some boosted_data ->
         observed s boosted_data = Some name ->
         name <> "" ->
         (s = Boss -> post_raised Creature new = false) ->
         post_attempted s new = true.
Proof.
  run_call.
  all: close_run.
  all: split; [lia |].
  all: intros d [|] name Hd Hobs Hname Hcreature; try discriminate Hd;
       injection Hd as <-; cbn in Hobs.
  all: try congruence.
  all: pose proof (fun last => @should_post_forced name last Hname) as Hforced.
  all: repeat match goal with
              | H : boosted_creature _ = _ |- _ => rewrite H in *; clear H
              | H : boosted_boss _ = _ |- _ => rewrite H in *; clear H
              end.
  all: match goal with
       | H : Some _ = Some _ |- _ => injection H as Hsame; subst
       end.
  all: try (rewrite Hforced in *; discriminate).
  all: know_class; cbn.
  all: try (specialize (Hcreature eq_refl); discriminate Hcreature).
  all: vm_compute; auto.
Qed.

(** X18.  [update_command] runs [post_boosted_updates] with force: the bot
    and its history after the command are those after a forced call, so the
    post of every slot with a non-empty observed name is attempted whatever
    was posted last.  Its reply is the lines of [response_parts] joined by
    newlines: one line per slot and one per error message, three at most.
    When that reply goes through, the command returns after this one
    follow-up.  When it raises, the command logs the exception and sends
    one more follow-up, "Command failed" with the text of the exception,
    and an exception of this second follow-up leaves the command.  When
    [defer] raises, the command raises at once and the bot is not
    called. *)
Theorem update_command_reply (env : Env) (i : Interaction) (bot : Bot)
    (tr : list Event) :
  exists r st' new,
    call env true bot tr = (Returned r, st')
    /\ st_trace st' = (tr ++ new)%list
    /\ (List.length (response_parts r) = 2 + List.length (errors r))%nat
    /\ (List.length (response_parts r) <= 3)%nat
    /\ (forall boosted_data s name,
          api_get_boosted_creatures env tr = Some boosted_data ->
          observed s boosted_data = Some name ->
          name <> "" ->
          (s = Boss -> post_raised Creature new = false) ->
          post_attempted s new = true)
    /\ match response_defer i with
       | Err e =>
           invoke env i update_command bot tr
           = (Raised e,
              {| cmd_self := bot;
                 cmd_trace := tr;
                 cmd_replies := [EvDefer (Err e)] |})
       | Ok _ =>
           exists out st answer rest,
             invoke env i update_command bot tr = (out, st)
             /\ cmd_self st = st_self st'
             /\ cmd_trace st = st_trace st'
             /\ cmd_replies st
                = EvDefer (Ok tt)
                  :: EvFollowup (String.concat newline (response_parts r))
                                answer
                  :: rest
             /\ match answer with
                | Ok _ => rest = [] /\ out = Returned tt
                | Err e =>
                    exists answer',
                      rest = [EvLogError ("Error in update command: "
                                          ++ exn_str e);
                              EvFollowup ("‚ùå Command failed: "
                                          ++ exn_str e) answer']
                      /\ out = match answer' with
                               | Ok _ => Returned tt
                               | Err e' => Raised e'
                               end
                end
       end.
Proof.
  destruct (call_forced env bot tr)
    as (r & st' & new & Hcall & Htr & Herr & Hforced).
  exists r, st', new.
  split; [exact Hcall |]. split; [exact Htr |].
  assert (Hparts : (List.length (response_parts r)
                    = 2 + List.length (errors r))%nat).
  { unfold response_parts. destruct (errors r) as [| m l]; [reflexivity |].
    rewrite length_app, length_map. reflexivity. }
  split; [exact Hparts |]. split; [lia |]. split; [exact Hforced |].
  unfold invoke, update_command.
  cbn -[call response_parts String.concat String.append].
  destruct (response_defer i) as [[] | e];
    cbn -[call response_parts String.concat String.append];
    [| reflexivity].
  rewrite Hcall. cbn -[response_parts String.concat String.append].
  destruct (followup_send i [EvDefer (Ok tt)]
              (String.concat newline (response_parts r))) as [[] | e] eqn:Hsend;
    cbn -[response_parts String.concat String.append].
  - do 2 eexists. exists (Ok tt), []. repeat split.
  - match goal with
    | |- context [followup_send i ?l ?m] =>
        destruct (followup_send i l m) as [[] | e'] eqn:Hsecond
    end;
    cbn -[response_parts String.concat String.append];
    do 2 eexists; exists (Err e); eexists;
    (split; [reflexivity |]); (split; [reflexivity |]);
    (split; [reflexivity |]); (split; [reflexivity |]).
    + exists (Ok tt). split; reflexivity.
    + exists (Err e'). split; reflexivity.
Qed.

(** X19.  [status_command] only reads: the bot is as before, and the one
    thing it adds to the history of the bot is a fetch of the summary (no
    channel lookup, detail fetch or send).  Its reply is one follow-up:
    the text "Failed to fetch boosted data" when there is no summary,
    else the status embed with the observed creature and boss, an absent
    one shown as the text "None" like a creature of that name.  When that
    reply raises, the command logs the exception and sends one more
    follow-up, "Command failed" with the text of the exception, and an
    exception of this second follow-up leaves the command.  When [defer]
    raises, the command raises at once and nothing is fetched. *)
Theorem status_command_read_only (env : Env) (i : Interaction) (bot : Bot)
    (tr : list Event) :
  exists out st,
    invoke env i status_command bot tr = (out, st)
    /\ cmd_self st = bot
    /\ (forall creature boss stamp now,
          status_embed {| boosted_creature := None;
                          boosted_boss := boss;
                          timestamp := stamp |} now
          = status_embed {| boosted_creature := Some "None";
                            boosted_boss := boss;
                            timestamp := stamp |} now
          /\ status_embed {| boosted_creature := creature;
                             boosted_boss := None;
                             timestamp := stamp |} now
             = status_embed {| boosted_creature := creature;
                               boosted_boss := Some "None";
                               timestamp := stamp |} now)
    /\ match response_defer i with
       | Err e =>
           out = Raised e
           /\ cmd_trace st = tr
           /\ cmd_replies st = [EvDefer (Err e)]
       | Ok _ =>
           cmd_trace st
           = (tr ++ [EvGetBoosted (api_get_boosted_creatures env tr)])%list
           /\ exists answer rest,
                cmd_replies st
                = EvDefer (Ok tt)
                  :: match api_get_boosted_creatures env tr with
                     | None =>
                         EvFollowup "‚ùå Failed to fetch boosted data" answer
                     | Some boosted_data =>
                         EvFollowupEmbed
                           (status_embed boosted_data (utcnow i)) answer
                     end
                  :: rest
                /\ match answer with
                   | Ok _ => rest = [] /\ out = Returned tt
                   | Err e =>
                       exists answer',
                         rest = [EvLogError ("Error in status command: "
                                             ++ exn_str e);
                                 EvFollowup ("‚ùå Command failed: "
                                             ++ exn_str e) answer']
                         /\ out = match answer' with
                                  | Ok _ => Returned tt
                                  | Err e' => Raised e'
                                  end
                   end
       end.
Proof.
  assert (Hnone : forall creature boss stamp now,
            status_embed {| boosted_creature := None;
                            boosted_boss := boss;
                            timestamp := stamp |} now
            = status_embed {| boosted_creature := Some "None";
                              boosted_boss := boss;
                              timestamp := stamp |} now
            /\ status_embed {| boosted_creature := creature;
                               boosted_boss := None;
                               timestamp := stamp |} now
               = status_embed {| boosted_creature := creature;
                                 boosted_boss := Some "None";
                                 timestamp := stamp |} now)
    by (intros; split; reflexivity).
  unfold invoke, status_command.
  cbn -[status_embed String.append].
  destruct (response_defer i) as [[] | e]; cbn -[status_embed String.append];
    [| do 2 eexists; (split; [reflexivity |]); (split; [reflexivity |]);
       (split; [exact Hnone |]); repeat split].
  destruct (api_get_boosted_creatures env tr) as [d |];
    cbn -[status_embed String.append];
    match goal with
    | |- context [followup_send_embed i ?l ?m] =>
        destruct (followup_send_embed i l m) as [[] | e]
    | |- context [followup_send i ?l ?m] =>
        destruct (followup_send i l m) as [[] | e]
    end;
    cbn -[status_embed String.append];
    try (match goal with
         | |- context [followup_send i ?l ?m] =>
             destruct (followup_send i l m) as [[] | e']
         end;
         cbn -[status_embed String.append]).
  all: do 2 eexists;
       (split; [reflexivity |]); (split; [reflexivity |]);
       (split; [exact Hnone |]); (split; [reflexivity |]).
  all: first [ exists (Ok tt), []; split; [reflexivity |]; split; reflexivity
             | exists (Err e); eexists; split; [reflexivity |];
               first [ exists (Ok tt); split; reflexivity
                     | exists (Err e'); split; reflexivity ] ].
Qed.

(** *** Starting up *)

(** X20.  [setup_hook] never raises: an exception of [tree.sync()] or of
    [scheduler.start()] is logged as one error line and the hook returns.
    The scheduler is asked to start exactly when the command sync went
    through, so a failed sync leaves the bot without its scheduler and with
    nothing but the log line to tell. *)
Theorem setup_hook_outcome (env : SetupEnv) :
  exists tr,
    run (handle_setup env) setup_hook [] = (Returned tt, tr)
    /\ (start_requested tr = true <-> tree_sync env = Ok tt)
    /\ (scheduler_started tr = true <->
        tree_sync env = Ok tt /\ setup_errors tr = [])
    /\ (forall e,
          tree_sync env = Err e ->
          tr = [EvSync (Err e);
                EvSetupLog ERROR ("Error in setup_hook: " ++ exn_str e)])
    /\ (List.length (setup_errors tr) <= 1)%nat.
Proof.
  unfold setup_hook. cbn.
  destruct (tree_sync env) as [[] | e] eqn:Hsync; cbn.
  - destruct (scheduler_start env _) as [[] | e]; cbn;
      eexists; (split; [reflexivity |]); cbn;
      repeat split; auto; try discriminate; try lia.
    intros (_ & H). discriminate H.
  - eexists. split; [reflexivity |]. cbn.
    repeat split; auto; try discriminate; try lia.
    + intros (H & _). discriminate H.
    + intros e0 [= <-]. reflexivity.
Qed.

End TibiaBotFacts.
